(** * The Dockerfile tag synchronizer ([.travis/docker-update.py])

    A shallow embedding of the script and of the parts of Python it
    relies on: [re.search] on the script's pattern, [str.replace],
    text-mode file access, [requests.get] followed by [.json()], and
    [print].  A file holds its characters as they are stored; reading
    it in text mode turns the line ends [\r\n] and [\r] into [\n], and
    writing it encodes a [str], which fails on a character the encoding
    of the files has not ([os.linesep] is [\n], as on the hosts that run
    the script).  The network and the JSON decoder are part of the
    environment, a field of the world the script runs in. *)

From Stdlib Require Import Ascii String.
From stdpp Require Import base list strings gmap.


(** ** Text *)

(** The characters that files hold, and a text made of them. *)
Abbreviation text := (list ascii).

Definition str (s : string) : text := list_ascii_of_string s.

(** A character of a Python [str]: one that files can hold, or one the
    encoding of the files has not, such as the lone surrogate that the
    JSON escape [\ud800] decodes to. *)
Inductive pychar : Type :=
| Chr (c : ascii)
| Surrogate (code : N).

Global Instance pychar_eq_dec : EqDecision pychar.
Proof. solve_decision. Defined.

(** A Python [str], as the list of its characters. *)
Abbreviation pystr := (list pychar).

(** A text as a [str]. *)
Definition py (t : text) : pystr := Chr <$> t.

(** [s.encode()] with the encoding of the files: [None] when it raises
    [UnicodeEncodeError]. *)
Fixpoint encode (u : pystr) : option text :=
  match u with
  | [] => Some []
  | Chr c :: u' => cons c <$> encode u'
  | Surrogate _ :: _ => None
  end.

Definition CR : ascii := "013"%char.
Definition LF : ascii := "010"%char.

(** What text mode makes of the characters of a file when it reads
    them: every [\r\n] and every other [\r] becomes [\n]. *)
Fixpoint universal_newlines (s : text) : text :=
  match s with
  | [] => []
  | c :: t =>
      if decide (c = CR) then
        LF :: match t with
              | d :: t' =>
                  if decide (d = LF) then universal_newlines t'
                  else universal_newlines t
              | [] => []
              end
      else c :: universal_newlines t
  end.

(** ** A backtracking matcher for the constructs the pattern uses *)

Module Re.

(** The [re] syntax that occurs in [REGEX]: literals, a character class
    of ranges, concatenation, a bounded greedy repetition [r{lo,hi}], a
    positive lookbehind [(?<=r)] and a capturing group [(r)]. *)
Inductive regex : Type :=
| Eps
| Lit (c : ascii)
| Class (ranges : list (ascii * ascii))
| Seq (r1 r2 : regex)
| Repeat (lo hi : nat) (r : regex)
| Lookbehind (r : regex)
| Group (r : regex).

(** A run of literal characters, as [re] parses ["FROM ..."]. *)
Fixpoint literal (m : text) : regex :=
  match m with
  | [] => Eps
  | c :: m' => Seq (Lit c) (literal m')
  end.

Definition in_range (c : ascii) (r : ascii * ascii) : bool :=
  (nat_of_ascii r.1 <=? nat_of_ascii c) && (nat_of_ascii c <=? nat_of_ascii r.2).

Definition in_class (ranges : list (ascii * ascii)) (c : ascii) : bool :=
  existsb (in_range c) ranges.

(** [re] only compiles a lookbehind whose body has one fixed width. *)
Fixpoint width (r : regex) : option nat :=
  match r with
  | Eps => Some 0
  | Lit _ | Class _ => Some 1
  | Seq r1 r2 =>
      match width r1, width r2 with
      | Some w1, Some w2 => Some (w1 + w2)
      | _, _ => None
      end
  | Repeat lo hi r1 =>
      if decide (lo = hi) then
        match width r1 with Some w => Some (lo * w) | None => None end
      else None
  | Lookbehind _ => Some 0
  | Group r1 => width r1
  end.

Section Matcher.
(** The subject string; positions are indices into it. *)
Variable s : text.

(** [rmatch r p k]: match [r] at position [p], then continue with [k]
    at the position reached; [None] makes the caller backtrack. *)
Fixpoint rmatch (r : regex) (p : nat) (k : nat → option nat) {struct r}
  : option nat :=
  match r with
  | Eps => k p
  | Lit c =>
      match s !! p with
      | Some d => if decide (d = c) then k (S p) else None
      | None => None
      end
  | Class ranges =>
      match s !! p with
      | Some d => if in_class ranges d then k (S p) else None
      | None => None
      end
  | Seq r1 r2 => rmatch r1 p (λ q, rmatch r2 q k)
  | Repeat lo hi r1 =>
      (fix rep (lo hi p : nat) {struct hi} : option nat :=
         match hi with
         | 0 => match lo with 0 => k p | S _ => None end
         | S hi' =>
             match rmatch r1 p (λ q, rep (pred lo) hi' q) with
             | Some e => Some e
             | None => match lo with 0 => k p | S _ => None end
             end
         end) lo hi p
  | Lookbehind r1 =>
      match width r1 with
      | Some w =>
          if decide (w ≤ p) then
            match rmatch r1 (p - w)
                    (λ q, if decide (q = p) then Some q else None) with
            | Some _ => k p
            | None => None
            end
          else None
      | None => None
      end
  | Group r1 => rmatch r1 p k
  end.

(** The end of the match that starts at [i], if there is one. *)
Definition match_at (r : regex) (i : nat) : option nat := rmatch r i Some.

(** [re.search] tries the start positions from left to right. *)
Fixpoint search_from (r : regex) (i n : nat) : option (nat * nat) :=
  match n with
  | 0 => None
  | S n' =>
      match match_at r i with
      | Some e => Some (i, e)
      | None => search_from r (S i) n'
      end
  end.
End Matcher.

(** [re.search(r, s)]: the span of the leftmost match, or [None]. *)
Definition search (r : regex) (s : text) : option (nat * nat) :=
  search_from s r 0 (S (length s)).

(** [m.group()]: the text of the whole match. *)
Definition group (s : text) (m : nat * nat) : text :=
  take (m.2 - m.1) (drop m.1 s).

End Re.

(** ** The script's constants *)

Definition MARKER : text := str "FROM numeconcopenhagen/jupyterlab-docker:".

Definition HEX : list (ascii * ascii) :=
  [("0"%char, "9"%char); ("a"%char, "f"%char)].

(** ["(?<=FROM numeconcopenhagen/jupyterlab-docker:)([0-9a-f]{5,40})"] *)
Definition REGEX : Re.regex :=
  Re.Seq (Re.Lookbehind (Re.literal MARKER))
         (Re.Group (Re.Repeat 5 40 (Re.Class HEX))).

(** ** Python's [str.find] and [str.replace] *)

Section Replace.
Context {A : Type} `{EqDecision A}.

(** [s.find(old)]: the index of the leftmost occurrence ([None] for -1). *)
Fixpoint find (old s : list A) {struct s} : option nat :=
  if bool_decide (take (length old) s = old) then Some 0
  else match s with
       | [] => None
       | _ :: s' => S <$> find old s'
       end.

(** The loop of [str.replace] for a non-empty [old]: find the next
    occurrence, copy what precedes it, emit [new], go on after it. *)
Fixpoint replace_loop (fuel : nat) (old new s : list A) : list A :=
  match fuel with
  | 0 => s
  | S fuel' =>
      match find old s with
      | None => s
      | Some i =>
          take i s ++ new ++ replace_loop fuel' old new (drop (i + length old) s)
      end
  end.

(** [s.replace(old, new)]; an empty [old] matches between all characters. *)
Definition str_replace (s old new : list A) : list A :=
  match old with
  | [] => new ++ flat_map (λ c, c :: new) s
  | _ :: _ => replace_loop (length s) old new s
  end.
End Replace.

(** ** Values decoded from JSON, and the exceptions the script can raise *)

#[warnings="-register-all"]
Inductive json : Type :=
| JNull
| JBool (b : bool)
| JInt (n : Z)
| JFloat (literal : text)
| JStr (t : pystr)
| JArr (items : list json)
| JObj (fields : gmap string json).

Inductive exn : Type :=
| FileNotFoundError
| AttributeError
| ConnectionError
| JSONDecodeError
| IndexError
| KeyError
| TypeError
| UnicodeEncodeError.

Global Instance exn_eq_dec : EqDecision exn.
Proof. solve_decision. Defined.

(** [v[i]] for an integer [i ≥ 0]. *)
Definition getitem_int (v : json) (i : nat) : exn + json :=
  match v with
  | JArr items =>
      match items !! i with Some x => inr x | None => inl IndexError end
  | JStr t =>
      match t !! i with Some c => inr (JStr [c]) | None => inl IndexError end
  | JObj _ => inl KeyError
  | JNull | JBool _ | JInt _ | JFloat _ => inl TypeError
  end.

(** [v[key]] for a string [key]. *)
Definition getitem_str (v : json) (key : string) : exn + json :=
  match v with
  | JObj fields =>
      match fields !! key with Some x => inr x | None => inl KeyError end
  | _ => inl TypeError
  end.

(** [v != t] for a string [t]: values of another type are never equal. *)
Definition ne_str (v : json) (t : text) : bool :=
  match v with
  | JStr u => bool_decide (u ≠ py t)
  | _ => true
  end.

(** [s.replace(old, v)]: the second argument must be a [str]. *)
Definition replace_with (s old : text) (v : json) : exn + pystr :=
  match v with
  | JStr new => inr (str_replace (py s) (py old) new)
  | _ => inl TypeError
  end.

(** [f"{v}"] for the values that reach the f-string, which are strings:
    [replace_with] has raised before for all others. *)
Definition format (v : json) : pystr :=
  match v with
  | JStr t => t
  | _ => []
  end.

(** ** The world the script runs in *)

Inductive mode : Type := R | W.

Inductive event : Type :=
| Get (url : string)
| Open (path : string) (m : mode)
| Write (path : string) (data : text).

Record response : Type := mkResponse {
  status_code : Z;
  json_body : option json   (* [None]: the body does not decode *)
}.

Record World : Type := mkWorld {
  fs : gmap string text;             (* the files, as they are stored *)
  net : string → option response;    (* [None]: the request fails *)
  stdout : list text;                (* the lines printed so far *)
  trace : list event                 (* the requests made so far *)
}.

Definition log (ev : event) (w : World) : World :=
  mkWorld (fs w) (net w) (stdout w) (trace w ++ [ev]).

Definition set_fs (f : gmap string text) (w : World) : World :=
  mkWorld f (net w) (stdout w) (trace w).

(** A computation changes the world and returns a value or raises; what
    it did before raising stays done. *)
Definition M (A : Type) : Type := World → (exn + A) * World.

Definition ret {A : Type} (a : A) : M A := λ w, (inr a, w).

Definition raise {A : Type} (e : exn) : M A := λ w, (inl e, w).

Definition bind {A B : Type} (m : M A) (f : A → M B) : M B := λ w,
  match m w with
  | (inr a, w') => f a w'
  | (inl e, w') => (inl e, w')
  end.

Definition lift {A : Type} (r : exn + A) : M A := λ w, (r, w).

Global Instance M_ret : MRet M := @ret.
Global Instance M_bind : MBind M := λ A B f m, bind m f.

(** [with open(path, "r") as f: f.read()] *)
Definition read_text (path : string) : M text := λ w,
  match fs w !! path with
  | Some stored => (inr (universal_newlines stored), log (Open path R) w)
  | None => (inl FileNotFoundError, log (Open path R) w)
  end.

(** [open(path, "w")]: the file is created or truncated at once. *)
Definition open_w (path : string) : M unit := λ w,
  (inr tt, log (Open path W) (set_fs (<[path := []]> (fs w)) w)).

(** [f.write(data)] on the file opened at [path]: the whole [data] is
    encoded before any of it is written. *)
Definition write (path : string) (data : pystr) : M unit := λ w,
  match encode data with
  | Some chars =>
      (inr tt,
       log (Write path chars)
           (set_fs (<[path := default [] (fs w !! path) ++ chars]> (fs w)) w))
  | None => (inl UnicodeEncodeError, w)
  end.

(** [requests.get(url)] *)
Definition requests_get (url : string) : M response := λ w,
  match net w url with
  | Some r => (inr r, log (Get url) w)
  | None => (inl ConnectionError, log (Get url) w)
  end.

(** [r.json()] *)
Definition response_json (r : response) : M json :=
  match json_body r with
  | Some j => mret j
  | None => raise JSONDecodeError
  end.

(** [print(line)]; standard output has the encoding of the files. *)
Definition print (line : pystr) : M unit := λ w,
  match encode line with
  | Some chars =>
      (inr tt, mkWorld (fs w) (net w) (stdout w ++ [chars]) (trace w))
  | None => (inl UnicodeEncodeError, w)
  end.

(** ** The script *)

Definition URL : string :=
  "https://api.github.com/repos/numeconcopenhagen/jupyterlab-docker/commits".

Definition get_dockerfile_sha : M text :=
  content ← read_text "Dockerfile";
  match Re.search REGEX content with
  | Some m => mret (Re.group content m)
  | None => raise AttributeError     (* [None.group()] *)
  end.

Definition get_latest_jupyterlabdockerfile_sha : M json :=
  r ← requests_get URL;
  j ← response_json r;
  first ← lift (getitem_int j 0);
  lift (getitem_str first "sha").

Definition main : M unit :=
  jupyterlab_sha ← get_latest_jupyterlabdockerfile_sha;
  docker_sha ← get_dockerfile_sha;
  if ne_str jupyterlab_sha docker_sha then
    content ← read_text "Dockerfile";
    open_w "Dockerfile";;
    new_content ← lift (replace_with content docker_sha jupyterlab_sha);
    write "Dockerfile" new_content;;
    print (py (str "The new tag is: ") ++ format jupyterlab_sha)
  else
    print (py (str "The tag is update to date")).

(** * Notions the statements use *)

(** The number of leading characters of [t] that satisfy [P]. *)
Fixpoint run_length (P : ascii → bool) (t : text) : nat :=
  match t with
  | c :: t' => if P c then S (run_length P t') else 0
  | [] => 0
  end.

Definition hexdigit (c : ascii) : bool := Re.in_class HEX c.

(** A string of characters from [[0-9a-f]]. *)
Definition hexstring (h : text) : Prop := Forall (λ c, hexdigit c = true) h.

(** The text does not go on with a character from [[0-9a-f]]. *)
Definition starts_nonhex (t : text) : Prop :=
  match t with
  | c :: _ => hexdigit c = false
  | [] => True
  end.

(** The contents hold a substring the pattern matches: the marker and
    right after it between 5 and 40 characters from [[0-9a-f]]. *)
Definition has_match (s : text) : Prop :=
  ∃ pre h post : text,
    s = pre ++ MARKER ++ h ++ post ∧ hexstring h ∧ 5 ≤ length h ≤ 40.

(** That no match starts before the one after [pre ++ MARKER]. *)
Definition first_match (s pre : text) : Prop :=
  ∀ pre' h' post' : text,
    s = pre' ++ MARKER ++ h' ++ post' → hexstring h' → 5 ≤ length h' ≤ 40 →
    length pre ≤ length pre'.

(** [j[0]['sha']] *)
Definition first_sha (j : json) : exn + json :=
  match getitem_int j 0 with
  | inl e => inl e
  | inr first => getitem_str first "sha"
  end.

(** The world after the two reads that open every run. *)
Definition after_reads (w : World) : World :=
  log (Open "Dockerfile" R) (log (Get URL) w).

(** [old] occurs in [s]. *)
Definition occurs (old s : text) : Prop := ∃ a b : text, s = a ++ old ++ b.

(** [t] is [s] with the occurrences of [old] replaced by [new], found
    one after the other from the left, each search starting behind the
    occurrence replaced before. *)
Inductive replaced_all (old new : text) : text → text → Prop :=
| replaced_done (s : text) :
    ¬ occurs old s → replaced_all old new s s
| replaced_next (a b b' : text) :
    (∀ a' c' : text, a ++ old ++ b = a' ++ old ++ c' → length a ≤ length a') →
    replaced_all old new b b' →
    replaced_all old new (a ++ old ++ b) (a ++ new ++ b').

(** Only the leftmost occurrence replaced, as the claim has it
    ([s.replace(old, new, 1)] in Python). *)
Definition replace_first (s old new : text) : text :=
  match find old s with
  | None => s
  | Some i => take i s ++ new ++ drop (i + length old) s
  end.

(** The order the steps are claimed to have: whenever the trace holds a
    request to the network, the Dockerfile has been opened for reading
    before it. *)
Definition read_before_fetch (tr : list event) : Prop :=
  ∀ (i : nat) (url : string),
    tr !! i = Some (Get url) →
    ∃ j, j < i ∧ tr !! j = Some (Open "Dockerfile" R).

(** The error kinds of the specification for the exceptions of the
    script. *)
Inductive error_kind : Type :=
| FileNotFound
| PatternNotFound
| NetworkError
| FormatError.

Definition kind_of (e : exn) : error_kind :=
  match e with
  | FileNotFoundError => FileNotFound
  | AttributeError => PatternNotFound
  | ConnectionError => NetworkError
  | JSONDecodeError | IndexError | KeyError | TypeError
  | UnicodeEncodeError => FormatError
  end.

(** * Worlds to run the script in *)

(** A Dockerfile with the usual first line, pinned to [abc1234]. *)
Definition dockerfile_abc : text :=
  MARKER ++ str "abc1234" ++ ["010"%char] ++ str "RUN pip install numpy".

Definition github_ok (sha : json) : string → option response :=
  λ _, Some (mkResponse 200 (Some (JArr [JObj {[ "sha"%string := sha ]}]))).

Definition world_abc (remote : json) : World :=
  mkWorld {[ "Dockerfile"%string := dockerfile_abc ]} (github_ok remote) [] [].

Definition world_python : World :=
  mkWorld {[ "Dockerfile"%string := str "FROM python:3.7-slim" ]}
    (github_ok JNull) [] [].

Definition digits45 : text := str "0123456789abcdef0123456789abcdef0123456789abc".

(** A Dockerfile that names the pinned reference a second time. *)
Definition dockerfile_twice : text :=
  MARKER ++ str "abc1234" ++ ["010"%char] ++ str "LABEL base=abc1234".

Definition world_twice : World :=
  mkWorld {[ "Dockerfile"%string := dockerfile_twice ]}
    (github_ok (JStr (py (str "def5678")))) [] [].

Definition world_no_dockerfile : World :=
  mkWorld ∅ (github_ok (JStr (py (str "def5678")))) [] [].

Definition world_404 : World :=
  mkWorld {[ "Dockerfile"%string := dockerfile_abc ]}
    (λ _, Some (mkResponse 404
                  (Some (JArr [JObj {[ "sha"%string := JStr (py (str "def5678")) ]}]))))
    [] [].

Definition world_403 : World :=
  mkWorld {[ "Dockerfile"%string := dockerfile_abc ]}
    (λ _, Some (mkResponse 403
                  (Some (JObj {[ "message"%string := JStr (py (str "rate limit")) ]}))))
    [] [].

(** A Dockerfile with the line ends [\r\n]. *)
Definition dockerfile_crlf : text :=
  MARKER ++ str "abc1234" ++ [CR; LF] ++ str "RUN pip install numpy".

Definition world_crlf : World :=
  mkWorld {[ "Dockerfile"%string := dockerfile_crlf ]}
    (github_ok (JStr (py (str "def5678")))) [] [].

(** A response whose [sha] is the string of one lone surrogate, as
    JSON's ["\ud800"] decodes. *)
Definition world_surrogate : World := world_abc (JStr [Surrogate 0]).

(** A response of the expected shape whose [sha] is a number. *)
Definition world_sha_number : World := world_abc (JInt 123).

Definition world_dirty : World := world_abc (JStr (py (str "def5678-dirty"))).

(** A Dockerfile whose marker is followed by 45 hex digits. *)
Definition world_long : World :=
  mkWorld {[ "Dockerfile"%string := MARKER ++ digits45 ]}
    (github_ok (JStr (py (str "def5678")))) [] [].

(** * Properties of the matcher *)

Section MatcherFacts.
Variable s : text.

Lemma drop_lookup_cons (p : nat) (d : ascii) :
  s !! p = Some d → drop p s = d :: drop (S p) s.
Proof. intros H. by rewrite (drop_S _ _ _ H). Qed.

Lemma drop_lookup_nil (p : nat) : s !! p = None → drop p s = [].
Proof. intros H. apply drop_ge. by apply lookup_ge_None. Qed.

(** A literal matches at [p] when the text at [p] starts with it. *)
Lemma rmatch_literal (m : text) (p : nat) (k : nat → option nat) :
  Re.rmatch s (Re.literal m) p k =
  if bool_decide (take (length m) (drop p s) = m)
  then k (p + length m) else None.
Proof.
  revert p k. induction m as [|c m IH]; intros p k; simpl.
  - f_equal. lia.
  - destruct (s !! p) as [d|] eqn:Hp.
    + rewrite (drop_lookup_cons _ _ Hp). simpl.
      destruct (decide (d = c)) as [->|Hne].
      * rewrite IH. replace (S p + length m) with (p + S (length m)) by lia.
        case_bool_decide as H1; case_bool_decide as H2; congruence.
      * rewrite bool_decide_eq_false_2; [done|]. congruence.
    + rewrite (drop_lookup_nil _ Hp). by rewrite bool_decide_eq_false_2.
Qed.

Lemma width_literal (m : text) : Re.width (Re.literal m) = Some (length m).
Proof. induction m as [|c m IH]; simpl; [done|]. by rewrite IH. Qed.

(** A lookbehind for a literal looks at the text that ends at [p]. *)
Lemma rmatch_lookbehind_literal (m : text) (p : nat) (k : nat → option nat) :
  Re.rmatch s (Re.Lookbehind (Re.literal m)) p k =
  if bool_decide (length m ≤ p ∧ take (length m) (drop (p - length m) s) = m)
  then k p else None.
Proof.
  simpl. rewrite width_literal. destruct (decide (length m ≤ p)) as [Hle|Hgt].
  - rewrite rmatch_literal.
    case_bool_decide as H1.
    + rewrite decide_True by lia. by rewrite bool_decide_eq_true_2.
    + rewrite bool_decide_eq_false_2; [done|]. by intros [_ ?].
  - rewrite bool_decide_eq_false_2; [done|]. by intros [? _].
Qed.

Lemma rmatch_class (ranges : list (ascii * ascii)) (p : nat) k :
  Re.rmatch s (Re.Class ranges) p k =
  match s !! p with
  | Some d => if Re.in_class ranges d then k (S p) else None
  | None => None
  end.
Proof. reflexivity. Qed.

Lemma rmatch_repeat_S (lo hi : nat) (r : Re.regex) (p : nat) k :
  Re.rmatch s (Re.Repeat lo (S hi) r) p k =
  match Re.rmatch s r p (λ q, Re.rmatch s (Re.Repeat (pred lo) hi r) q k) with
  | Some e => Some e
  | None => match lo with 0 => k p | S _ => None end
  end.
Proof. reflexivity. Qed.

(** A greedy bounded repetition of a class, with nothing after it,
    takes as many characters as it may. *)
Lemma rmatch_repeat_class (ranges : list (ascii * ascii)) (lo hi p : nat) :
  Re.rmatch s (Re.Repeat lo hi (Re.Class ranges)) p Some =
  let n := hi `min` run_length (Re.in_class ranges) (drop p s) in
  if decide (lo ≤ n) then Some (p + n) else None.
Proof.
  revert lo p. induction hi as [|hi IH]; intros lo p.
  - simpl. destruct lo; simpl; [f_equal; lia | done].
  - rewrite rmatch_repeat_S, rmatch_class.
    destruct (s !! p) as [d|] eqn:Hp.
    + rewrite (drop_lookup_cons _ _ Hp). simpl run_length.
      destruct (Re.in_class ranges d).
      * cbv beta. rewrite IH. cbv zeta.
        set (n := hi `min` run_length (Re.in_class ranges) (drop (S p) s)).
        replace (S hi `min` S (run_length (Re.in_class ranges) (drop (S p) s)))
          with (S n) by lia.
        destruct (decide (pred lo ≤ n)) as [H1|H1].
        -- rewrite decide_True by lia. f_equal. lia.
        -- rewrite decide_False by lia. destruct lo; [lia | done].
      * cbv zeta. rewrite Nat.min_0_r.
        destruct lo; simpl; [f_equal; lia | done].
    + rewrite (drop_lookup_nil _ Hp). cbv zeta. simpl run_length.
      rewrite Nat.min_0_r. destruct lo; simpl; [f_equal; lia | done].
Qed.
End MatcherFacts.

(** ** Where the script's pattern matches *)

Lemma MARKER_length : length MARKER = 41.
Proof. reflexivity. Qed.

Lemma run_length_app (P : ascii → bool) (h t : text) :
  Forall (λ c, P c = true) h →
  run_length P (h ++ t) = length h + run_length P t.
Proof.
  induction 1 as [|c h Hc _ IH]; simpl; [done|]. by rewrite Hc, IH.
Qed.

Lemma run_length_nonhex (t : text) :
  starts_nonhex t → run_length hexdigit t = 0.
Proof. destruct t as [|c t]; simpl; [done|]. by intros ->. Qed.

Lemma run_length_le (P : ascii → bool) (t : text) : run_length P t ≤ length t.
Proof. induction t as [|c t IH]; simpl; [lia|]. destruct (P c); lia. Qed.

Lemma run_length_take (P : ascii → bool) (t : text) (n : nat) :
  n ≤ run_length P t → Forall (λ c, P c = true) (take n t).
Proof.
  revert n. induction t as [|c t IH]; intros [|n] Hn; simpl in *;
    try by constructor.
  destruct (P c) eqn:Hc; [|lia]. constructor; [done|]. apply IH. lia.
Qed.

Lemma run_length_drop (P : ascii → bool) (t : text) (c : ascii) :
  head (drop (run_length P t) t) = Some c → P c = false.
Proof.
  induction t as [|d t IH]; simpl; [done|].
  destruct (P d) eqn:Hd; simpl; [done|]. by intros [= <-].
Qed.

(** The text that ends at [p] is [m]: [s] splits around it. *)
Lemma ends_at_split (s m : text) (p : nat) :
  m ≠ [] →
  length m ≤ p ∧ take (length m) (drop (p - length m) s) = m ↔
  ∃ pre rest, s = pre ++ m ++ rest ∧ p = length pre + length m.
Proof.
  intros Hm. split.
  - intros [Hle Htake].
    assert (length m ≤ length s - (p - length m)) as Hlen.
    { apply (f_equal length) in Htake.
      rewrite length_take, length_drop in Htake. lia. }
    exists (take (p - length m) s), (drop p s). split.
    + rewrite <-(take_drop (p - length m) s) at 1. f_equal.
      rewrite <-(take_drop (length m) (drop (p - length m) s)) at 1.
      rewrite Htake, drop_drop. do 2 f_equal. lia.
    + rewrite length_take. destruct m; [done|]. simpl in *. lia.
  - intros (pre & rest & -> & ->). split; [lia|].
    replace (length pre + length m - length m) with (length pre) by lia.
    rewrite drop_app_length. by rewrite take_app_length.
Qed.

Lemma MARKER_nonempty : MARKER ≠ [].
Proof. discriminate. Qed.

Section PatternFacts.
Variable s : text.

Lemma rmatch_seq (r1 r2 : Re.regex) (p : nat) k :
  Re.rmatch s (Re.Seq r1 r2) p k = Re.rmatch s r1 p (λ q, Re.rmatch s r2 q k).
Proof. reflexivity. Qed.

Lemma rmatch_group (r : Re.regex) (p : nat) k :
  Re.rmatch s (Re.Group r) p k = Re.rmatch s r p k.
Proof. reflexivity. Qed.

(** What [REGEX] does at one start position: the marker must end
    there, and the match takes the hex digits that follow, at most
    40 and no fewer than 5. *)
Lemma match_at_REGEX (p : nat) :
  Re.match_at s REGEX p =
  if bool_decide (length MARKER ≤ p ∧
                  take (length MARKER) (drop (p - length MARKER) s) = MARKER)
  then
    let n := 40 `min` run_length hexdigit (drop p s) in
    if decide (5 ≤ n) then Some (p + n) else None
  else None.
Proof.
  unfold Re.match_at, REGEX.
  rewrite rmatch_seq, rmatch_lookbehind_literal.
  case_bool_decide; [|done].
  rewrite rmatch_group. apply rmatch_repeat_class.
Qed.

Lemma search_from_None (r : Re.regex) (i n : nat) :
  Re.search_from s r i n = None ↔
  ∀ j, i ≤ j < i + n → Re.match_at s r j = None.
Proof.
  revert i. induction n as [|n IH]; intros i; simpl.
  - split; [intros _ j ?; lia | done].
  - destruct (Re.match_at s r i) as [e|] eqn:Hi.
    + split; [done|]. intros H. specialize (H i). rewrite Hi in H.
      discriminate H. lia.
    + rewrite IH. split; intros H j Hj.
      * destruct (decide (j = i)) as [->|]; [done|]. apply H. lia.
      * apply H. lia.
Qed.

Lemma search_from_Some (r : Re.regex) (i n a e : nat) :
  Re.search_from s r i n = Some (a, e) ↔
  i ≤ a < i + n ∧ Re.match_at s r a = Some e ∧
  ∀ j, i ≤ j < a → Re.match_at s r j = None.
Proof.
  revert i. induction n as [|n IH]; intros i; simpl.
  - split; [done | intros [? _]; lia].
  - destruct (Re.match_at s r i) as [e'|] eqn:Hi.
    + split.
      * intros [= <- <-]. split; [lia|]. split; [done|]. intros j ?; lia.
      * intros (Ha & He & Hfirst).
        destruct (decide (a = i)) as [->|Hne]; [congruence|].
        rewrite Hfirst in Hi by lia. done.
    + rewrite IH. split.
      * intros (Ha & He & Hfirst). split; [lia|]. split; [done|].
        intros j Hj. destruct (decide (j = i)) as [->|]; [done|].
        apply Hfirst. lia.
      * intros (Ha & He & Hfirst).
        destruct (decide (a = i)) as [->|Hne]; [congruence|].
        split; [lia|]. split; [done|]. intros j Hj. apply Hfirst. lia.
Qed.
End PatternFacts.

(** The match at the end of a marker, in terms of the text around it. *)
Lemma match_at_marker (pre rest : text) :
  Re.match_at (pre ++ MARKER ++ rest) REGEX (length pre + length MARKER) =
  let n := 40 `min` run_length hexdigit rest in
  if decide (5 ≤ n) then Some (length pre + length MARKER + n) else None.
Proof.
  rewrite match_at_REGEX. rewrite bool_decide_eq_true_2.
  - replace (drop (length pre + length MARKER) (pre ++ MARKER ++ rest))
      with rest; [done|].
    rewrite (assoc_L (++)), <-length_app. by rewrite drop_app_length.
  - apply ends_at_split; [apply MARKER_nonempty|]. by exists pre, rest.
Qed.

(** A match, read back as a split of the contents. *)
Lemma match_at_inv (s : text) (p e : nat) :
  Re.match_at s REGEX p = Some e →
  ∃ pre h post : text,
    s = pre ++ MARKER ++ h ++ post ∧ hexstring h ∧ 5 ≤ length h ≤ 40 ∧
    p = length pre + length MARKER ∧ e = p + length h ∧
    (length h = 40 ∨ starts_nonhex post).
Proof.
  rewrite match_at_REGEX. case_bool_decide as Hm; [|done].
  apply ends_at_split in Hm as (pre & rest & -> & ->);
    [|apply MARKER_nonempty].
  replace (drop (length pre + length MARKER) (pre ++ MARKER ++ rest))
    with rest
    by (rewrite (assoc_L (++)), <-length_app; by rewrite drop_app_length).
  cbv zeta. set (n := 40 `min` run_length hexdigit rest).
  destruct (decide (5 ≤ n)) as [Hn|]; [|done]. intros [= <-].
  pose proof (run_length_le hexdigit rest) as Hle.
  exists pre, (take n rest), (drop n rest).
  assert (length (take n rest) = n) as Hlen by (rewrite length_take; lia).
  rewrite Hlen. split; [by rewrite take_drop|].
  split; [apply run_length_take; lia|]. split; [lia|].
  split; [done|]. split; [done|].
  destruct (decide (n = 40)) as [|Hne]; [by left | right].
  assert (n = run_length hexdigit rest) as -> by lia.
  unfold starts_nonhex.
  destruct (drop (run_length hexdigit rest) rest) as [|c t] eqn:Hd; [done|].
  eapply run_length_drop. by rewrite Hd.
Qed.

(** ** Line ends *)

Lemma MARKER_ends :
  ∃ mid : text, MARKER = "F"%char :: mid ++ [":"%char].
Proof. by exists (str "ROM numeconcopenhagen/jupyterlab-docker"). Qed.

Lemma universal_newlines_other (c : ascii) (t : text) :
  c ≠ CR → universal_newlines (c :: t) = c :: universal_newlines t.
Proof. intros Hc. cbn [universal_newlines]. by rewrite decide_False. Qed.

Lemma universal_newlines_CR_LF (t : text) :
  universal_newlines (CR :: LF :: t) = LF :: universal_newlines t.
Proof. reflexivity. Qed.

Lemma universal_newlines_CR_other (d : ascii) (t : text) :
  d ≠ LF →
  universal_newlines (CR :: d :: t) = LF :: universal_newlines (d :: t).
Proof.
  intros Hd. change (universal_newlines (CR :: d :: t))
    with (LF :: if decide (d = LF) then universal_newlines t
                else universal_newlines (d :: t)).
  by rewrite decide_False.
Qed.

(** Text without [\r] is read as it is. *)
Lemma universal_newlines_free (m t : text) :
  Forall (λ c, c ≠ CR) m →
  universal_newlines (m ++ t) = m ++ universal_newlines t.
Proof.
  induction 1 as [|c m Hc _ IH]; [done|]. cbn [app].
  by rewrite universal_newlines_other, IH.
Qed.

Lemma universal_newlines_id (t : text) :
  Forall (λ c, c ≠ CR) t → universal_newlines t = t.
Proof.
  intros H. rewrite <-(app_nil_r t) at 1.
  by rewrite universal_newlines_free, app_nil_r.
Qed.

(** What has been read holds no [\r]. *)
Lemma universal_newlines_no_CR (s : text) :
  Forall (λ c, c ≠ CR) (universal_newlines s).
Proof.
  remember (length s) as n eqn:Hn. revert s Hn.
  induction (lt_wf n) as [n _ IH]. intros s ->.
  destruct s as [|c s1]; [constructor|].
  destruct (decide (c = CR)) as [->|Hc].
  - destruct s1 as [|d s2]; [by repeat constructor|].
    destruct (decide (d = LF)) as [->|Hd].
    + rewrite universal_newlines_CR_LF. constructor; [done|].
      apply (IH (length s2)); [simpl; lia | done].
    + rewrite universal_newlines_CR_other by done. constructor; [done|].
      apply (IH (length (d :: s2))); [simpl; lia | done].
  - rewrite universal_newlines_other by done. constructor; [done|].
    apply (IH (length s1)); [simpl; lia | done].
Qed.

(** Reading works on both sides of a place apart, unless the place is
    inside a [\r\n]. *)
Lemma universal_newlines_app (a b : text) :
  head b ≠ Some LF →
  universal_newlines (a ++ b) = universal_newlines a ++ universal_newlines b.
Proof.
  intros Hb. remember (length a) as n eqn:Hn. revert a Hn.
  induction (lt_wf n) as [n _ IH]. intros a ->.
  destruct a as [|c a1]; [done|]. cbn [app].
  destruct (decide (c = CR)) as [->|Hc].
  - destruct a1 as [|d a2].
    + cbn [app]. destruct b as [|d b']; [done|].
      rewrite universal_newlines_CR_other; [done|].
      intros ->. by destruct Hb.
    + cbn [app]. destruct (decide (d = LF)) as [->|Hd].
      * rewrite !universal_newlines_CR_LF.
        rewrite (IH (length a2)); [done | simpl; lia | done].
      * rewrite !universal_newlines_CR_other by done.
        change (d :: a2 ++ b) with ((d :: a2) ++ b).
        rewrite (IH (length (d :: a2))); [done | simpl; lia | done].
  - rewrite !universal_newlines_other by done.
    rewrite (IH (length a1)); [done | simpl; lia | done].
Qed.

(** A piece without line ends in what has been read was in the file,
    with the text around it read to what stands around it. *)
Lemma universal_newlines_free_inv (m s b' : text) :
  Forall (λ c, c ≠ CR ∧ c ≠ LF) m →
  universal_newlines s = m ++ b' →
  ∃ b, s = m ++ b ∧ universal_newlines b = b'.
Proof.
  intros Hm. revert s. induction Hm as [|x m [Hx1 Hx2] _ IH]; intros s Heq.
  - by exists s.
  - destruct s as [|c s1]; [done|].
    destruct (decide (c = CR)) as [->|Hc].
    + destruct s1 as [|d s2]; [by injection Heq|].
      destruct (decide (d = LF)) as [->|Hd].
      * rewrite universal_newlines_CR_LF in Heq. by injection Heq.
      * rewrite universal_newlines_CR_other in Heq by done. by injection Heq.
    + rewrite universal_newlines_other in Heq by done.
      injection Heq as -> Heq. destruct (IH _ Heq) as (b & -> & Hb).
      by exists b.
Qed.

Lemma universal_newlines_inv (s a' m b' : text) :
  Forall (λ c, c ≠ CR ∧ c ≠ LF) m → m ≠ [] →
  universal_newlines s = a' ++ m ++ b' →
  ∃ a b, s = a ++ m ++ b ∧
         universal_newlines a = a' ∧ universal_newlines b = b'.
Proof.
  intros Hm Hnil. remember (length s) as n eqn:Hn. revert s a' Hn.
  induction (lt_wf n) as [n _ IH]. intros s a' -> Heq.
  destruct a' as [|y a2].
  { destruct (universal_newlines_free_inv m s b' Hm Heq) as (b & -> & Hb).
    by exists [], b. }
  destruct s as [|c s1]; [done|].
  destruct (decide (c = CR)) as [->|Hc].
  - destruct s1 as [|d s2].
    { injection Heq as _ Heq. symmetry in Heq.
      apply app_eq_nil in Heq as [_ Heq]. by apply app_eq_nil in Heq as [? _]. }
    destruct (decide (d = LF)) as [->|Hd].
    + rewrite universal_newlines_CR_LF in Heq. injection Heq as <- Heq.
      destruct (IH (length s2)) with (s := s2) (a' := a2)
        as (a & b & -> & <- & <-); [simpl; lia | done | done |].
      by exists (CR :: LF :: a), b.
    + rewrite universal_newlines_CR_other in Heq by done.
      injection Heq as <- Heq.
      destruct (IH (length (d :: s2))) with (s := d :: s2) (a' := a2)
        as (a & b & Hs & <- & <-); [simpl; lia | done | done |].
      exists (CR :: a), b. split; [by rewrite Hs|]. split; [|done].
      destruct a as [|d' a]; [done|]. injection Hs as <- _.
      by rewrite universal_newlines_CR_other.
  - rewrite universal_newlines_other in Heq by done. injection Heq as <- Heq.
    destruct (IH (length s1)) with (s := s1) (a' := a2)
      as (a & b & -> & <- & <-); [simpl; lia | done | done |].
    exists (c :: a), b. by rewrite universal_newlines_other.
Qed.

Lemma hexdigit_no_line_end (c : ascii) :
  hexdigit c = true → c ≠ CR ∧ c ≠ LF.
Proof. intros H. split; intros ->; by vm_compute in H. Qed.

Lemma hexstring_no_line_end (h : text) :
  hexstring h → Forall (λ c, c ≠ CR ∧ c ≠ LF) h.
Proof.
  intros H. eapply Forall_impl; [exact H | apply hexdigit_no_line_end].
Qed.

Lemma MARKER_no_line_end : Forall (λ c, c ≠ CR ∧ c ≠ LF) MARKER.
Proof. repeat constructor; discriminate. Qed.

Lemma pinned_no_line_end (h : text) :
  hexstring h → Forall (λ c, c ≠ CR ∧ c ≠ LF) (MARKER ++ h).
Proof.
  intros Hh. apply Forall_app. split; [apply MARKER_no_line_end|].
  by apply hexstring_no_line_end.
Qed.

(** A marker and the digits behind it are read as they are stored. *)
Lemma universal_newlines_pinned (pre h post : text) :
  hexstring h →
  universal_newlines (pre ++ MARKER ++ h ++ post)
  = universal_newlines pre ++ MARKER ++ h ++ universal_newlines post.
Proof.
  intros Hh. rewrite universal_newlines_app.
  - f_equal. rewrite (assoc_L (++) MARKER), universal_newlines_free.
    + by rewrite <-(assoc_L (++)).
    + eapply Forall_impl; [by apply pinned_no_line_end|]. by intros c [? _].
  - destruct MARKER_ends as [mid ->]. cbn. discriminate.
Qed.

Lemma universal_newlines_pinned_inv (s a' h b' : text) :
  hexstring h →
  universal_newlines s = a' ++ MARKER ++ h ++ b' →
  ∃ a b, s = a ++ MARKER ++ h ++ b ∧
         universal_newlines a = a' ∧ universal_newlines b = b'.
Proof.
  intros Hh Heq. rewrite (assoc_L (++) MARKER) in Heq.
  apply universal_newlines_inv in Heq as (a & b & -> & <- & <-).
  - exists a, b. by rewrite <-(assoc_L (++) MARKER).
  - by apply pinned_no_line_end.
  - destruct MARKER_ends as [mid ->]. discriminate.
Qed.

(** Of two markers in a file the earlier one is the earlier one in what
    is read. *)
Lemma marker_order_read (pre a x y : text) :
  pre ++ MARKER ++ x = a ++ MARKER ++ y →
  length pre ≤ length a ↔
  length (universal_newlines pre) ≤ length (universal_newlines a).
Proof.
  intros Heq. destruct MARKER_ends as [mid Hmid]. rewrite Hmid in Heq.
  apply app_eq_inv in Heq as [(k & -> & Hk)|(k & -> & Hk)].
  - destruct k as [|c k]; [by rewrite app_nil_r|].
    cbn [app] in Hk. injection Hk as <- _.
    rewrite universal_newlines_app by (cbn; discriminate).
    rewrite universal_newlines_other by discriminate.
    rewrite !length_app. cbn [length]. lia.
  - destruct k as [|c k]; [by rewrite app_nil_r|].
    cbn [app] in Hk. injection Hk as <- _.
    rewrite universal_newlines_app by (cbn; discriminate).
    rewrite universal_newlines_other by discriminate.
    rewrite !length_app. cbn [length]. lia.
Qed.

Lemma has_match_read (s : text) :
  has_match s ↔ has_match (universal_newlines s).
Proof.
  split.
  - intros (pre & h & post & -> & Hh & Hlen).
    exists (universal_newlines pre), h, (universal_newlines post).
    by rewrite universal_newlines_pinned.
  - intros (pre' & h & post' & Heq & Hh & Hlen).
    apply universal_newlines_pinned_inv in Heq as (a & b & -> & _); [|done].
    by exists a, h, b.
Qed.

Lemma starts_nonhex_read (t : text) :
  starts_nonhex t ↔ starts_nonhex (universal_newlines t).
Proof.
  destruct t as [|c t]; [done|].
  destruct (decide (c = CR)) as [->|Hc].
  - split; [|done]. intros _. destruct t as [|d t]; [done|].
    destruct (decide (d = LF)) as [->|Hd]; [done|].
    by rewrite universal_newlines_CR_other.
  - by rewrite universal_newlines_other.
Qed.

Lemma first_match_read (pre h post : text) :
  hexstring h →
  first_match (pre ++ MARKER ++ h ++ post) pre ↔
  first_match (universal_newlines (pre ++ MARKER ++ h ++ post))
    (universal_newlines pre).
Proof.
  intros Hh. split; intros Hfirst.
  - intros pre' h' post' Heq Hh' Hlen'.
    apply universal_newlines_pinned_inv in Heq as (a & b & Heq & <- & _);
      [|done].
    apply (marker_order_read pre a (h ++ post) (h' ++ b) Heq).
    by apply (Hfirst a h' b).
  - intros a h' b Heq Hh' Hlen'.
    apply (marker_order_read pre a (h ++ post) (h' ++ b) Heq).
    apply (Hfirst (universal_newlines a) h' (universal_newlines b));
      [|done..].
    by rewrite Heq, universal_newlines_pinned.
Qed.

(** ** Running [get_dockerfile_sha] *)

Lemma get_dockerfile_sha_run (w : World) :
  get_dockerfile_sha w =
  (match fs w !! "Dockerfile" with
   | None => inl FileNotFoundError
   | Some stored =>
       match Re.search REGEX (universal_newlines stored) with
       | Some m => inr (Re.group (universal_newlines stored) m)
       | None => inl AttributeError
       end
   end,
   log (Open "Dockerfile" R) w).
Proof.
  unfold get_dockerfile_sha, mbind, M_bind, bind, read_text.
  destruct (fs w !! "Dockerfile") as [stored|]; [|done].
  by destruct (Re.search REGEX (universal_newlines stored)).
Qed.

Lemma match_at_pinned (pre h post : text) :
  hexstring h → 5 ≤ length h ≤ 40 → length h = 40 ∨ starts_nonhex post →
  Re.match_at (pre ++ MARKER ++ h ++ post) REGEX (length pre + length MARKER)
  = Some (length pre + length MARKER + length h).
Proof.
  intros Hh Hlen Hend. rewrite match_at_marker. cbv zeta.
  rewrite (run_length_app _ _ _ Hh).
  assert (40 `min` (length h + run_length hexdigit post) = length h) as ->.
  { destruct Hend as [?|Hpost]; [lia|].
    rewrite (run_length_nonhex _ Hpost). lia. }
  by rewrite decide_True by lia.
Qed.

Lemma search_pinned (pre h post : text) :
  hexstring h → 5 ≤ length h ≤ 40 → length h = 40 ∨ starts_nonhex post →
  first_match (pre ++ MARKER ++ h ++ post) pre →
  Re.search REGEX (pre ++ MARKER ++ h ++ post)
  = Some (length pre + length MARKER, length pre + length MARKER + length h).
Proof.
  intros Hh Hlen Hend Hfirst. unfold Re.search. apply search_from_Some.
  split; [rewrite !length_app; lia|].
  split; [by apply match_at_pinned|].
  intros j [_ Hj]. destruct (Re.match_at _ REGEX j) as [e|] eqn:Hm; [|done].
  apply match_at_inv in Hm
    as (pre' & h' & post' & Heq & Hh' & Hlen' & -> & _ & _).
  specialize (Hfirst pre' h' post' Heq Hh' Hlen'). lia.
Qed.

Lemma group_pinned (pre h post : text) :
  Re.group (pre ++ MARKER ++ h ++ post)
    (length pre + length MARKER, length pre + length MARKER + length h) = h.
Proof.
  unfold Re.group. cbn [fst snd].
  replace (length pre + length MARKER + length h
           - (length pre + length MARKER)) with (length h) by lia.
  rewrite (assoc_L (++) pre), <-length_app, drop_app_length.
  by rewrite take_app_length.
Qed.

Lemma search_None_no_match (s : text) :
  Re.search REGEX s = None ↔ ¬ has_match s.
Proof.
  unfold Re.search. rewrite search_from_None. split.
  - intros Hnone (pre & h & post & -> & Hh & Hlen).
    specialize (Hnone (length pre + length MARKER)).
    rewrite match_at_marker in Hnone. cbv zeta in Hnone.
    rewrite (run_length_app _ _ _ Hh) in Hnone.
    rewrite decide_True in Hnone by lia.
    discriminate Hnone. rewrite !length_app. lia.
  - intros Hno j _. destruct (Re.match_at s REGEX j) as [e|] eqn:Hm; [|done].
    destruct Hno.
    apply match_at_inv in Hm as (pre & h & post & ? & ? & ? & _).
    by exists pre, h, post.
Qed.

Lemma get_dockerfile_sha_no_match (w : World) (content : text) :
  fs w !! "Dockerfile" = Some content →
  ¬ has_match content →
  (get_dockerfile_sha w).1 = inl AttributeError.
Proof.
  intros Hfile Hno. rewrite get_dockerfile_sha_run, Hfile. cbn [fst].
  rewrite has_match_read in Hno.
  apply search_None_no_match in Hno. by rewrite Hno.
Qed.

Lemma get_dockerfile_sha_first (w : World) (pre h post : text) :
  fs w !! "Dockerfile" = Some (pre ++ MARKER ++ h ++ post) →
  hexstring h → 5 ≤ length h ≤ 40 →
  length h = 40 ∨ starts_nonhex post →
  first_match (pre ++ MARKER ++ h ++ post) pre →
  (get_dockerfile_sha w).1 = inr h.
Proof.
  intros Hfile Hh Hlen Hend Hfirst.
  rewrite get_dockerfile_sha_run, Hfile. cbn [fst].
  apply (first_match_read _ _ _ Hh) in Hfirst.
  rewrite (starts_nonhex_read post) in Hend.
  rewrite universal_newlines_pinned in Hfirst |- * by done.
  rewrite (search_pinned _ _ _ Hh Hlen Hend Hfirst).
  by rewrite group_pinned.
Qed.

(** [[0-9a-f]] is exactly these sixteen characters. *)
Lemma hexdigit_spec (c : ascii) :
  hexdigit c = true ↔ c ∈ str "0123456789abcdef".
Proof.
  assert (hexdigit c = bool_decide (c ∈ str "0123456789abcdef")) as ->.
  { by destruct c as [[] [] [] [] [] [] [] []]; vm_compute. }
  apply bool_decide_eq_true.
Qed.

(** * The extraction *)

(** C4: when the Dockerfile holds the marker immediately followed by a
    string [h] of 5 to 40 hex digits (the digits up to the next other
    character, or 40 of them), the pattern matches exactly [h] at that
    place; and when this is the first match in the file,
    [get_dockerfile_sha] returns exactly [h]. *)
Theorem get_dockerfile_sha_pinned (w : World) (pre h post : text) :
  fs w !! "Dockerfile" = Some (pre ++ MARKER ++ h ++ post) →
  hexstring h → 5 ≤ length h ≤ 40 →
  length h = 40 ∨ starts_nonhex post →
  Re.match_at (pre ++ MARKER ++ h ++ post) REGEX (length pre + length MARKER)
    = Some (length pre + length MARKER + length h) ∧
  (first_match (pre ++ MARKER ++ h ++ post) pre →
   (get_dockerfile_sha w).1 = inr h).
Proof.
  intros Hfile Hh Hlen Hend. split; [by apply match_at_pinned|].
  intros Hfirst. by apply (get_dockerfile_sha_first w pre h post).
Qed.

Lemma get_dockerfile_sha_pinned_witness :
  (get_dockerfile_sha (world_abc JNull)).1 = inr (str "abc1234").
Proof.
  refine (proj2 (get_dockerfile_sha_pinned (world_abc JNull) []
                   (str "abc1234")
                   (["010"%char] ++ str "RUN pip install numpy") _ _ _ _) _).
  - reflexivity.
  - repeat constructor.
  - simpl; lia.
  - right; reflexivity.
  - intros pre' h' post' _ _ _; simpl; lia.
Defined.

(** C7: reading an existing Dockerfile, [get_dockerfile_sha] raises if
    and only if the contents hold no substring the pattern matches (the
    marker followed by 5 to 40 hex digits); the exception is the
    [AttributeError] of [None.group()], the pattern-not-found kind of
    the specification; with a match it returns. *)
Theorem get_dockerfile_sha_fails_iff (w : World) (content : text) :
  fs w !! "Dockerfile" = Some content →
  ((∃ e, (get_dockerfile_sha w).1 = inl e) ↔ ¬ has_match content) ∧
  (¬ has_match content → (get_dockerfile_sha w).1 = inl AttributeError) ∧
  (has_match content → ∃ h, (get_dockerfile_sha w).1 = inr h) ∧
  kind_of AttributeError = PatternNotFound.
Proof.
  intros Hfile. rewrite get_dockerfile_sha_run, Hfile. cbn [fst].
  destruct (Re.search REGEX (universal_newlines content)) as [m|] eqn:Hs.
  - assert (¬ ¬ has_match content) as Hnn.
    { rewrite has_match_read, <-search_None_no_match. congruence. }
    split; [|split; [|split]].
    + split; [by intros [e ?] | done].
    + done.
    + intros _. by eexists.
    + done.
  - apply search_None_no_match in Hs. rewrite <-has_match_read in Hs.
    split; [|split; [|split]].
    + split; [done | by eexists].
    + done.
    + done.
    + done.
Qed.

Lemma get_dockerfile_sha_fails_iff_witness :
  ¬ has_match (str "FROM python:3.7-slim") ∧
  (has_match dockerfile_abc →
   ∃ h, (get_dockerfile_sha (world_abc JNull)).1 = inr h).
Proof.
  split.
  - refine (proj1 (proj1 (get_dockerfile_sha_fails_iff world_python
                            (str "FROM python:3.7-slim") _)) _).
    + reflexivity.
    + exists AttributeError. reflexivity.
  - refine (proj1 (proj2 (proj2 (get_dockerfile_sha_fails_iff
                                   (world_abc JNull) dockerfile_abc _)))).
    reflexivity.
Defined.

(** C9: the class of the pattern is exactly the sixteen characters
    [0-9a-f], so the uppercase letters [A-F] are outside it; where the
    marker is followed by a character outside the class, the pattern
    does not match at that position; and when no marker in the file is
    followed by 5 or more characters of the class, [get_dockerfile_sha]
    raises. *)
Theorem only_lowercase_hex :
  (∀ c, hexdigit c = true ↔ c ∈ str "0123456789abcdef") ∧
  Forall (λ c, hexdigit c = false) (str "ABCDEF") ∧
  (∀ (pre rest : text) (c : ascii),
     hexdigit c = false →
     Re.match_at (pre ++ MARKER ++ c :: rest) REGEX
       (length pre + length MARKER) = None) ∧
  (∀ (w : World) (content : text),
     fs w !! "Dockerfile" = Some content →
     (∀ pre h post : text,
        content = pre ++ MARKER ++ h ++ post → hexstring h → length h < 5) →
     (get_dockerfile_sha w).1 = inl AttributeError).
Proof.
  split; [apply hexdigit_spec|]. split; [by repeat constructor|]. split.
  - intros pre rest c Hc. rewrite match_at_marker. simpl. by rewrite Hc.
  - intros w content Hfile Hshort.
    apply (get_dockerfile_sha_no_match w content Hfile).
    intros (pre & h & post & Heq & Hh & Hlen).
    specialize (Hshort pre h post Heq Hh). lia.
Qed.

(** C10: when the marker is immediately followed by more than 40 hex
    digits, the pattern matches exactly the first 40 of them at that
    place and the others stay outside the match; when this is the first
    match in the file, [get_dockerfile_sha] returns these 40 digits. *)
Theorem get_dockerfile_sha_capped (w : World) (pre digits post : text) :
  fs w !! "Dockerfile" = Some (pre ++ MARKER ++ digits ++ post) →
  hexstring digits → 40 < length digits →
  Re.match_at (pre ++ MARKER ++ digits ++ post) REGEX
    (length pre + length MARKER) = Some (length pre + length MARKER + 40) ∧
  (first_match (pre ++ MARKER ++ digits ++ post) pre →
   (get_dockerfile_sha w).1 = inr (take 40 digits)) ∧
  digits = take 40 digits ++ drop 40 digits ∧ drop 40 digits ≠ [].
Proof.
  intros Hfile Hh Hlen.
  assert (digits = take 40 digits ++ drop 40 digits) as Hsplit
    by (by rewrite take_drop).
  assert (length (take 40 digits) = 40) as Hlen40
    by (rewrite length_take; lia).
  assert (hexstring (take 40 digits)) as Hh40 by (by apply Forall_take).
  assert (pre ++ MARKER ++ digits ++ post
          = pre ++ MARKER ++ take 40 digits ++ (drop 40 digits ++ post)) as Heq.
  { rewrite (assoc_L (++) (take 40 digits)). by rewrite take_drop. }
  rewrite Heq in Hfile. rewrite Heq.
  assert (5 ≤ length (take 40 digits) ≤ 40) as Hlen5 by lia.
  pose proof (match_at_pinned pre (take 40 digits) (drop 40 digits ++ post)
                Hh40 Hlen5 (or_introl Hlen40)) as Hat.
  rewrite Hlen40 in Hat. split; [done|].
  split; [by apply get_dockerfile_sha_first; [..|left]|].
  split; [done|].
  intros Hnil. apply (f_equal length) in Hnil.
  rewrite length_drop in Hnil. simpl in Hnil. lia.
Qed.

Lemma get_dockerfile_sha_capped_witness :
  (get_dockerfile_sha
     (mkWorld {[ "Dockerfile"%string := MARKER ++ digits45 ++ [] ]}
        (github_ok JNull) [] [])).1
  = inr (str "0123456789abcdef0123456789abcdef01234567").
Proof.
  refine (proj1 (proj2 (get_dockerfile_sha_capped
            (mkWorld {[ "Dockerfile"%string := MARKER ++ digits45 ++ [] ]}
               (github_ok JNull) [] [])
            [] digits45 [] _ _ _)) _).
  - reflexivity.
  - repeat constructor.
  - simpl; lia.
  - intros pre' h' post' _ _ _; simpl; lia.
Defined.

(** * Running the script *)

Lemma get_latest_run (w : World) :
  get_latest_jupyterlabdockerfile_sha w =
  (match net w URL with
   | None => inl ConnectionError
   | Some r =>
       match json_body r with
       | None => inl JSONDecodeError
       | Some j => first_sha j
       end
   end,
   log (Get URL) w).
Proof.
  unfold get_latest_jupyterlabdockerfile_sha, mbind, M_bind, bind,
    requests_get, response_json, first_sha, lift.
  destruct (net w URL) as [r|]; [|done].
  destruct (json_body r) as [j|]; [|done]. simpl.
  by destruct (getitem_int j 0).
Qed.

Lemma get_latest_world (w : World) :
  (get_latest_jupyterlabdockerfile_sha w).2 = log (Get URL) w.
Proof. by rewrite get_latest_run. Qed.

Lemma get_dockerfile_sha_world (w : World) :
  (get_dockerfile_sha w).2 = log (Open "Dockerfile" R) w.
Proof. by rewrite get_dockerfile_sha_run. Qed.

Lemma get_dockerfile_sha_log (ev : event) (w : World) :
  (get_dockerfile_sha (log ev w)).1 = (get_dockerfile_sha w).1.
Proof. by rewrite !get_dockerfile_sha_run. Qed.

Lemma get_dockerfile_sha_content (w : World) (local : text) :
  (get_dockerfile_sha w).1 = inr local →
  ∃ content, fs w !! "Dockerfile" = Some content.
Proof.
  rewrite get_dockerfile_sha_run. cbn [fst].
  destruct (fs w !! "Dockerfile") as [content|]; [by eexists | done].
Qed.

Lemma main_fetch_fails (w : World) (e : exn) :
  (get_latest_jupyterlabdockerfile_sha w).1 = inl e →
  main w = (inl e, log (Get URL) w).
Proof.
  intros H. unfold main, mbind, M_bind, bind.
  destruct (get_latest_jupyterlabdockerfile_sha w) as [r w1] eqn:Hrun.
  pose proof (get_latest_world w) as Hw. rewrite Hrun in Hw.
  simpl in *. by subst.
Qed.

Lemma main_extract_fails (w : World) (v : json) (e : exn) :
  (get_latest_jupyterlabdockerfile_sha w).1 = inr v →
  (get_dockerfile_sha w).1 = inl e →
  main w = (inl e, after_reads w).
Proof.
  intros H1 H2. unfold main, mbind, M_bind, bind.
  destruct (get_latest_jupyterlabdockerfile_sha w) as [r w1] eqn:Hrun.
  pose proof (get_latest_world w) as Hw. rewrite Hrun in Hw.
  simpl in *. subst.
  rewrite <-(get_dockerfile_sha_log (Get URL)) in H2.
  destruct (get_dockerfile_sha (log (Get URL) w)) as [r w2] eqn:Hrun2.
  pose proof (get_dockerfile_sha_world (log (Get URL) w)) as Hw2.
  rewrite Hrun2 in Hw2. simpl in *. by subst.
Qed.

Lemma main_continues (w : World) (v : json) (local : text) :
  (get_latest_jupyterlabdockerfile_sha w).1 = inr v →
  (get_dockerfile_sha w).1 = inr local →
  main w =
  (if ne_str v local then
     content ← read_text "Dockerfile";
     open_w "Dockerfile";;
     new_content ← lift (replace_with content local v);
     write "Dockerfile" new_content;;
     print (py (str "The new tag is: ") ++ format v)
   else print (py (str "The tag is update to date"))) (after_reads w).
Proof.
  intros H1 H2. unfold main. unfold mbind at 1 2, M_bind at 1 2, bind at 1 2.
  destruct (get_latest_jupyterlabdockerfile_sha w) as [r w1] eqn:Hrun.
  pose proof (get_latest_world w) as Hw. rewrite Hrun in Hw.
  simpl in *. subst.
  rewrite <-(get_dockerfile_sha_log (Get URL)) in H2.
  destruct (get_dockerfile_sha (log (Get URL) w)) as [r w2] eqn:Hrun2.
  pose proof (get_dockerfile_sha_world (log (Get URL) w)) as Hw2.
  rewrite Hrun2 in Hw2. simpl in *. by subst.
Qed.

(** What a match of the search says about the text searched. *)
Lemma search_group_inv (t : text) (m : nat * nat) :
  Re.search REGEX t = Some m →
  ∃ pre post : text,
    t = pre ++ MARKER ++ Re.group t m ++ post ∧
    hexstring (Re.group t m) ∧ 5 ≤ length (Re.group t m) ≤ 40 ∧
    (length (Re.group t m) = 40 ∨ starts_nonhex post) ∧
    first_match t pre.
Proof.
  destruct m as [a e]. intros Hs.
  apply search_from_Some in Hs as (_ & Hat & Hfirst).
  apply match_at_inv in Hat
    as (pre & h & post & -> & Hh & Hlen & -> & -> & Hend).
  exists pre, post. rewrite group_pinned. do 4 (split; [done|]).
  intros pre' h' post' Heq Hh' Hlen'.
  destruct (decide (length pre ≤ length pre')) as [|Hlt]; [done|].
  specialize (Hfirst (length pre' + length MARKER)).
  rewrite Heq, match_at_marker in Hfirst. cbv zeta in Hfirst.
  rewrite (run_length_app _ _ _ Hh') in Hfirst.
  rewrite decide_True in Hfirst by lia. discriminate Hfirst. lia.
Qed.

(** What a successful extraction says about the text read. *)
Lemma get_dockerfile_sha_read_inv (w : World) (content local : text) :
  fs w !! "Dockerfile" = Some content →
  (get_dockerfile_sha w).1 = inr local →
  ∃ pre post : text,
    universal_newlines content = pre ++ MARKER ++ local ++ post ∧
    hexstring local ∧ 5 ≤ length local ≤ 40 ∧
    (length local = 40 ∨ starts_nonhex post) ∧
    first_match (universal_newlines content) pre.
Proof.
  intros Hfile. rewrite get_dockerfile_sha_run, Hfile. cbn [fst].
  destruct (Re.search REGEX (universal_newlines content)) as [m|] eqn:Hs;
    [|done].
  intros [= <-]. by apply search_group_inv.
Qed.

(** What a successful extraction says about the contents. *)
Lemma get_dockerfile_sha_inv (w : World) (content local : text) :
  fs w !! "Dockerfile" = Some content →
  (get_dockerfile_sha w).1 = inr local →
  ∃ pre post : text,
    content = pre ++ MARKER ++ local ++ post ∧
    hexstring local ∧ 5 ≤ length local ≤ 40 ∧
    (length local = 40 ∨ starts_nonhex post) ∧
    first_match content pre.
Proof.
  intros Hfile Hget.
  destruct (get_dockerfile_sha_read_inv w content local Hfile Hget)
    as (pre' & post' & Heq & Hh & Hlen & Hend & Hfirst).
  destruct (universal_newlines_pinned_inv _ _ _ _ Hh Heq)
    as (pre & post & -> & <- & <-).
  exists pre, post. do 3 (split; [done|]).
  split; [by rewrite starts_nonhex_read|]. by apply first_match_read.
Qed.

(** * [str.find] and [str.replace] *)

Lemma find_unfold (old s : text) :
  find old s =
  if bool_decide (take (length old) s = old) then Some 0
  else match s with
       | [] => None
       | _ :: s' => S <$> find old s'
       end.
Proof. by destruct s. Qed.

Lemma starts_with_iff (old s : text) :
  take (length old) s = old ↔ ∃ b, s = old ++ b.
Proof.
  split.
  - intros H. exists (drop (length old) s).
    rewrite <-H at 1. by rewrite take_drop.
  - intros [b ->]. by rewrite take_app_length.
Qed.

Lemma find_None_not_occurs (old s : text) :
  find old s = None → ¬ occurs old s.
Proof.
  induction s as [|c s IH]; rewrite find_unfold; case_bool_decide as Hst;
    try done.
  - intros _ (a & b & Heq). symmetry in Heq.
    apply app_eq_nil in Heq as [-> Heq]. apply app_eq_nil in Heq as [-> _].
    by destruct Hst.
  - destruct (find old s) as [i|]; [done|]. intros _ (a & b & Heq).
    destruct a as [|c' a]; simpl in Heq.
    + destruct Hst. apply starts_with_iff. by exists b.
    + injection Heq as -> ->. apply IH; [done|]. by exists a, b.
Qed.

Lemma find_Some_split (old s : text) (i : nat) :
  find old s = Some i →
  ∃ a b : text,
    s = a ++ old ++ b ∧ length a = i ∧
    ∀ a' b' : text, s = a' ++ old ++ b' → i ≤ length a'.
Proof.
  revert i. induction s as [|c s IH]; intros i; rewrite find_unfold;
    case_bool_decide as Hst; try done.
  - intros [= <-]. apply starts_with_iff in Hst as [b Hb].
    exists [], b. split; [done|]. split; [done|]. intros; lia.
  - intros [= <-]. apply starts_with_iff in Hst as [b Hb].
    exists [], b. split; [done|]. split; [done|]. intros; lia.
  - destruct (find old s) as [i'|]; [|done]. intros [= <-].
    destruct (IH i' eq_refl) as (a & b & -> & <- & Hleft).
    exists (c :: a), b. split; [done|]. split; [done|].
    intros [|c' a'] b' Heq; simpl in Heq.
    + destruct Hst. apply starts_with_iff. by exists b'.
    + injection Heq as -> Heq. specialize (Hleft _ _ Heq). simpl. lia.
Qed.

Lemma find_Some_take_drop (old s : text) (i : nat) :
  find old s = Some i →
  s = take i s ++ old ++ drop (i + length old) s.
Proof.
  intros (a & b & -> & <- & _)%find_Some_split.
  rewrite take_app_length. do 2 f_equal.
  rewrite (assoc_L (++)), <-length_app. by rewrite drop_app_length.
Qed.

Lemma find_nil (old : text) : old ≠ [] → find old [] = None.
Proof.
  intros Hold. rewrite find_unfold. rewrite bool_decide_eq_false_2; [done|].
  rewrite take_nil. congruence.
Qed.

Lemma find_Some_shorter (old s : text) (i : nat) :
  old ≠ [] → find old s = Some i →
  length (drop (i + length old) s) < length s.
Proof.
  intros Hold Hf. pose proof (find_Some_take_drop _ _ _ Hf) as Hs.
  apply (f_equal length) in Hs. rewrite !length_app in Hs.
  destruct old; [done | simpl in *; lia].
Qed.

Lemma replace_loop_fuel (old new : text) (f1 f2 : nat) (s : text) :
  old ≠ [] → length s ≤ f1 → length s ≤ f2 →
  replace_loop f1 old new s = replace_loop f2 old new s.
Proof.
  intros Hold. revert f2 s. induction f1 as [|f1 IH]; intros f2 s H1 H2.
  - destruct s; [|simpl in H1; lia]. destruct f2; [done|].
    cbn [replace_loop]. by rewrite find_nil.
  - destruct f2 as [|f2].
    + destruct s; [|simpl in H2; lia]. cbn [replace_loop].
      by rewrite find_nil.
    + cbn [replace_loop]. destruct (find old s) as [i|] eqn:Hf; [|done].
      do 2 f_equal. pose proof (find_Some_shorter _ _ _ Hold Hf).
      apply IH; lia.
Qed.

(** [str.replace] by its equation: replace the leftmost occurrence and
    go on in what follows it. *)
Lemma str_replace_unfold (s old new : text) :
  old ≠ [] →
  str_replace s old new =
  match find old s with
  | None => s
  | Some i => take i s ++ new ++ str_replace (drop (i + length old) s) old new
  end.
Proof.
  intros Hold. unfold str_replace. destruct old as [|c old]; [done|].
  destruct s as [|d s].
  - cbn [length replace_loop]. by rewrite find_nil.
  - cbn [length replace_loop].
    destruct (find (c :: old) (d :: s)) as [i|] eqn:Hf; [|done].
    do 2 f_equal. pose proof (find_Some_shorter _ _ _ Hold Hf) as Hs.
    destruct (drop _ (d :: s)) as [|d' s'] eqn:Hd.
    + destruct s; [done|]. cbn [length replace_loop]. by rewrite find_nil.
    + cbn [length] in Hs. apply replace_loop_fuel; cbn [length]; [done|lia|lia].
Qed.

Lemma str_replace_no_occurrence (s old new : text) :
  old ≠ [] → find old s = None → str_replace s old new = s.
Proof. intros Hold Hf. by rewrite str_replace_unfold, Hf. Qed.

(** [str.replace] replaces all occurrences, from the left. *)
Lemma str_replace_all (s old new : text) :
  old ≠ [] → replaced_all old new s (str_replace s old new).
Proof.
  intros Hold. remember (length s) as n eqn:Hn.
  revert s Hn. induction (lt_wf n) as [n _ IH]. intros s ->.
  rewrite str_replace_unfold by done.
  destruct (find old s) as [i|] eqn:Hf.
  - pose proof (find_Some_take_drop _ _ _ Hf) as Hs.
    destruct (find_Some_split _ _ _ Hf) as (a & b & -> & <- & Hleft).
    rewrite take_app_length.
    replace (drop (length a + length old) (a ++ old ++ b)) with b
      by (rewrite (assoc_L (++)), <-length_app; by rewrite drop_app_length).
    apply replaced_next; [done|].
    apply (IH (length b)); [|done]. rewrite !length_app.
    destruct old; [done | simpl; lia].
  - apply replaced_done. by apply find_None_not_occurs.
Qed.

(** With a single occurrence that is the one replaced, nothing else. *)
Lemma str_replace_single (a b old new : text) :
  old ≠ [] →
  (∀ a' b' : text, a ++ old ++ b = a' ++ old ++ b' → a' = a) →
  str_replace (a ++ old ++ b) old new = a ++ new ++ b.
Proof.
  intros Hold Huniq. rewrite str_replace_unfold by done.
  destruct (find old (a ++ old ++ b)) as [i|] eqn:Hf.
  - destruct (find_Some_split _ _ _ Hf) as (a' & b' & Heq & <- & _).
    pose proof (Huniq _ _ Heq) as ->.
    rewrite take_app_length.
    replace (drop (length a + length old) (a ++ old ++ b)) with b
      by (rewrite (assoc_L (++)), <-length_app; by rewrite drop_app_length).
    do 2 f_equal. apply str_replace_no_occurrence; [done|].
    destruct (find old b) as [j|] eqn:Hb; [|done].
    destruct (find_Some_split _ _ _ Hb) as (a2 & b2 & -> & _ & _).
    specialize (Huniq (a ++ old ++ a2) b2).
    rewrite <-!(assoc_L (++)) in Huniq. specialize (Huniq eq_refl).
    apply (f_equal length) in Huniq. rewrite !length_app in Huniq.
    destruct old; [done | simpl in Huniq; lia].
  - apply find_None_not_occurs in Hf. destruct Hf. by exists a, b.
Qed.

(** ** Strings and the texts they encode to *)

Lemma py_inj (t u : text) : py t = py u → t = u.
Proof.
  revert u. induction t as [|c t IH]; intros [|d u] H; try done.
  injection H as -> H. f_equal. by apply IH.
Qed.

Lemma py_app (t u : text) : py (t ++ u) = py t ++ py u.
Proof. apply fmap_app. Qed.

Lemma py_length (t : text) : length (py t) = length t.
Proof. apply length_fmap. Qed.

Lemma py_take (n : nat) (t : text) : take n (py t) = py (take n t).
Proof. symmetry. apply fmap_take. Qed.

Lemma py_drop (n : nat) (t : text) : drop n (py t) = py (drop n t).
Proof. symmetry. apply fmap_drop. Qed.

Lemma encode_py (t : text) : encode (py t) = Some t.
Proof.
  induction t as [|c t IH]; [done|].
  change (py (c :: t)) with (Chr c :: py t). cbn [encode]. by rewrite IH.
Qed.

Lemma encode_Some (u : pystr) (t : text) : encode u = Some t → u = py t.
Proof.
  revert t. induction u as [|[c|n] u IH]; intros t; cbn [encode];
    [by intros [= <-] | | done].
  destruct (encode u) as [t'|]; [|done]. cbn. intros [= <-].
  change (py (c :: t')) with (Chr c :: py t'). by rewrite (IH t' eq_refl).
Qed.

Lemma encode_app_None (a b c : pystr) :
  encode b = None → encode (a ++ b ++ c) = None.
Proof.
  intros Hb. induction a as [|[x|n] a IH]; cbn [app encode];
    [| by rewrite IH | done].
  induction b as [|[x|n] b IHb]; cbn [app encode] in *; [done| |done].
  destruct (encode b); [done|]. by rewrite IHb.
Qed.

Lemma starts_with_py (old s : text) :
  take (length (py old)) (py s) = py old ↔ take (length old) s = old.
Proof.
  rewrite py_length, py_take. split; [apply py_inj | by intros ->].
Qed.

Lemma find_py (old s : text) : find (py old) (py s) = find old s.
Proof.
  induction s as [|c s IH].
  - change (py []) with (@nil pychar). cbn [find].
    pose proof (starts_with_py old []) as Hiff.
    change (py []) with (@nil pychar) in Hiff.
    case_bool_decide as H1; case_bool_decide as H2; tauto.
  - change (py (c :: s)) with (Chr c :: py s). cbn [find]. rewrite IH.
    pose proof (starts_with_py old (c :: s)) as Hiff.
    change (py (c :: s)) with (Chr c :: py s) in Hiff.
    case_bool_decide as H1; case_bool_decide as H2; tauto.
Qed.

Lemma replace_loop_py (fuel : nat) (old new s : text) :
  replace_loop fuel (py old) (py new) (py s)
  = py (replace_loop fuel old new s).
Proof.
  revert s. induction fuel as [|fuel IH]; intros s; [done|].
  cbn [replace_loop]. rewrite find_py.
  destruct (find old s) as [i|]; [|done].
  rewrite py_take, py_length, py_drop, IH. by rewrite !py_app.
Qed.

(** Replacing in a text with strings that are texts is the replacement
    of texts. *)
Lemma str_replace_py (s old new : text) :
  old ≠ [] →
  str_replace (py s) (py old) (py new) = py (str_replace s old new).
Proof.
  intros Hold. destruct old as [|c old]; [done|].
  change (py (c :: old)) with (Chr c :: py old) at 1.
  cbn [str_replace]. change (Chr c :: py old) with (py (c :: old)).
  rewrite py_length. apply replace_loop_py.
Qed.

(** Where the old text occurs, a new string that does not encode makes
    a result that does not encode. *)
Lemma str_replace_unencodable (s old : text) (new : pystr) (i : nat) :
  old ≠ [] → find old s = Some i → encode new = None →
  encode (str_replace (py s) (py old) new) = None.
Proof.
  intros Hold Hf Hnew. destruct old as [|c old]; [done|].
  destruct s as [|d s]; [by rewrite find_nil in Hf|].
  change (py (c :: old)) with (Chr c :: py old) at 1.
  cbn [str_replace]. change (Chr c :: py old) with (py (c :: old)).
  rewrite py_length. cbn [length replace_loop].
  rewrite find_py, Hf. by apply encode_app_None.
Qed.

(** * The ways a run continues after the reads *)

Lemma print_text (t : text) (w : World) :
  print (py t) w
  = (inr (), mkWorld (fs w) (net w) (stdout w ++ [t]) (trace w)).
Proof. unfold print. by rewrite encode_py. Qed.

Lemma main_up_to_date (w : World) (v : json) (local : text) :
  (get_latest_jupyterlabdockerfile_sha w).1 = inr v →
  (get_dockerfile_sha w).1 = inr local →
  ne_str v local = false →
  main w = print (py (str "The tag is update to date")) (after_reads w).
Proof. intros H1 H2 Hne. by rewrite (main_continues _ _ _ H1 H2), Hne. Qed.

Lemma main_rewrites (w : World) (content local remote : text) :
  fs w !! "Dockerfile" = Some content →
  (get_latest_jupyterlabdockerfile_sha w).1 = inr (JStr (py remote)) →
  (get_dockerfile_sha w).1 = inr local →
  remote ≠ local →
  main w =
  (inr (),
   mkWorld
     (<["Dockerfile" :=
          str_replace (universal_newlines content) local remote]> (fs w))
     (net w)
     (stdout w ++ [str "The new tag is: " ++ remote])
     (trace w ++ [Get URL; Open "Dockerfile" R; Open "Dockerfile" R;
                  Open "Dockerfile" W;
                  Write "Dockerfile"
                    (str_replace (universal_newlines content) local remote)])).
Proof.
  intros Hfile H1 H2 Hne. rewrite (main_continues _ _ _ H1 H2).
  destruct (get_dockerfile_sha_read_inv _ _ _ Hfile H2)
    as (pre & post & _ & _ & Hlen & _).
  assert (local ≠ []) as Hlocal by (intros ->; simpl in Hlen; lia).
  cbn [ne_str]. rewrite bool_decide_eq_true_2
    by (intros Heq; by apply py_inj in Heq).
  unfold mbind, M_bind, bind, read_text, open_w, write, lift,
    after_reads, log, set_fs. cbn [fs net stdout trace].
  rewrite Hfile. cbn [replace_with fs net stdout trace format].
  rewrite (str_replace_py _ _ _ Hlocal), encode_py.
  cbn [fs net stdout trace]. rewrite <-py_app, print_text.
  cbn [fs net stdout trace].
  rewrite lookup_insert_eq, insert_insert_eq. cbn [default app].
  f_equal. f_equal. by rewrite <-!(assoc_L (++)).
Qed.

Lemma main_type_error (w : World) (v : json) (local : text) :
  (get_latest_jupyterlabdockerfile_sha w).1 = inr v →
  (get_dockerfile_sha w).1 = inr local →
  (∀ t, v ≠ JStr t) →
  main w =
  (inl TypeError,
   mkWorld (<["Dockerfile" := []]> (fs w)) (net w) (stdout w)
     (trace w ++ [Get URL; Open "Dockerfile" R; Open "Dockerfile" R;
                  Open "Dockerfile" W])).
Proof.
  intros H1 H2 Hv. rewrite (main_continues _ _ _ H1 H2).
  destruct (get_dockerfile_sha_content _ _ H2) as [content Hfile].
  assert (ne_str v local = true) as -> by (destruct v; try done; by destruct (Hv t)).
  unfold mbind, M_bind, bind, read_text, open_w, write, print, lift,
    after_reads, log, set_fs. cbn [fs net stdout trace].
  rewrite Hfile.
  assert (replace_with (universal_newlines content) local v = inl TypeError)
    as -> by (destruct v; try done; by destruct (Hv t)).
  cbn [fs net stdout trace]. f_equal. f_equal. by rewrite <-!(assoc_L (++)).
Qed.

(** A string that does not encode is replaced into the text, and the
    write raises when the Dockerfile has been emptied. *)
Lemma main_encode_error (w : World) (remote : pystr) (local : text) :
  (get_latest_jupyterlabdockerfile_sha w).1 = inr (JStr remote) →
  (get_dockerfile_sha w).1 = inr local →
  encode remote = None →
  main w =
  (inl UnicodeEncodeError,
   mkWorld (<["Dockerfile" := []]> (fs w)) (net w) (stdout w)
     (trace w ++ [Get URL; Open "Dockerfile" R; Open "Dockerfile" R;
                  Open "Dockerfile" W])).
Proof.
  intros H1 H2 Henc. rewrite (main_continues _ _ _ H1 H2).
  destruct (get_dockerfile_sha_content _ _ H2) as [content Hfile].
  destruct (get_dockerfile_sha_read_inv _ _ _ Hfile H2)
    as (pre & post & Heq & _ & Hlen & _).
  assert (local ≠ []) as Hlocal by (intros ->; simpl in Hlen; lia).
  cbn [ne_str]. rewrite bool_decide_eq_true_2
    by (intros ->; by rewrite encode_py in Henc).
  unfold mbind, M_bind, bind, read_text, open_w, write, lift,
    after_reads, log, set_fs. cbn [fs net stdout trace].
  rewrite Hfile. cbn [replace_with fs net stdout trace].
  destruct (find local (universal_newlines content)) as [i|] eqn:Hf.
  - rewrite (str_replace_unencodable _ _ _ i Hlocal Hf Henc).
    f_equal. f_equal. by rewrite <-!(assoc_L (++)).
  - apply find_None_not_occurs in Hf. destruct Hf.
    exists (pre ++ MARKER), post. by rewrite <-(assoc_L (++)).
Qed.

Lemma main_cases (w : World) :
  (∃ e, (get_latest_jupyterlabdockerfile_sha w).1 = inl e ∧
        main w = (inl e, log (Get URL) w)) ∨
  (∃ v e, (get_latest_jupyterlabdockerfile_sha w).1 = inr v ∧
          (get_dockerfile_sha w).1 = inl e ∧
          main w = (inl e, after_reads w)) ∨
  (∃ local,
     (get_latest_jupyterlabdockerfile_sha w).1 = inr (JStr (py local)) ∧
     (get_dockerfile_sha w).1 = inr local ∧
     main w
     = print (py (str "The tag is update to date")) (after_reads w)) ∨
  (∃ content local remote,
     fs w !! "Dockerfile" = Some content ∧
     (get_latest_jupyterlabdockerfile_sha w).1 = inr (JStr (py remote)) ∧
     (get_dockerfile_sha w).1 = inr local ∧ remote ≠ local ∧
     main w =
     (inr (),
      mkWorld
        (<["Dockerfile" :=
             str_replace (universal_newlines content) local remote]> (fs w))
        (net w)
        (stdout w ++ [str "The new tag is: " ++ remote])
        (trace w ++ [Get URL; Open "Dockerfile" R; Open "Dockerfile" R;
                     Open "Dockerfile" W;
                     Write "Dockerfile"
                       (str_replace (universal_newlines content)
                          local remote)]))) ∨
  (∃ v local,
     (get_latest_jupyterlabdockerfile_sha w).1 = inr v ∧
     (get_dockerfile_sha w).1 = inr local ∧
     ((∀ t, v ≠ JStr t) ∧ (main w).1 = inl TypeError ∨
      (∃ t, v = JStr t ∧ encode t = None) ∧
      (main w).1 = inl UnicodeEncodeError) ∧
     (main w).2
     = mkWorld (<["Dockerfile" := []]> (fs w)) (net w) (stdout w)
         (trace w ++ [Get URL; Open "Dockerfile" R; Open "Dockerfile" R;
                      Open "Dockerfile" W])).
Proof.
  destruct (get_latest_jupyterlabdockerfile_sha w).1 as [e|v] eqn:H1.
  { left. exists e. split; [done|]. by apply main_fetch_fails. }
  right. destruct (get_dockerfile_sha w).1 as [e|local] eqn:H2.
  { left. exists v, e. do 2 (split; [done|]). by apply (main_extract_fails w v). }
  right.
  assert ((∃ t, v = JStr t) ∨ ∀ t, v ≠ JStr t) as [[u ->]|Hv]
    by (destruct v; eauto).
  - destruct (encode u) as [remote|] eqn:Henc.
    + apply encode_Some in Henc as ->.
      destruct (decide (remote = local)) as [->|Hne].
      * left. exists local. do 2 (split; [done|]).
        apply (main_up_to_date w (JStr (py local)) local); [done..|].
        cbn. by rewrite bool_decide_eq_false_2 by auto.
      * right; left.
        destruct (get_dockerfile_sha_content _ _ H2) as [content Hfile].
        exists content, local, remote. do 4 (split; [done|]).
        by apply main_rewrites.
    + right; right. exists (JStr u), local. do 2 (split; [done|]).
      rewrite (main_encode_error w u local H1 H2 Henc). split; [|done].
      right. split; [by exists u | done].
  - right; right. exists v, local. do 2 (split; [done|]).
    rewrite (main_type_error w v local H1 H2 Hv). split; [|done].
    by left.
Qed.

(** * The claims about a run *)

(** C5: when the reference extracted from the Dockerfile equals the one
    fetched, the run ends normally, opens the Dockerfile only for
    reading and writes nothing, so every file is as before, and the one
    line printed is "The tag is update to date". *)
Theorem up_to_date_writes_nothing (w : World) (local : text) :
  (get_dockerfile_sha w).1 = inr local →
  (get_latest_jupyterlabdockerfile_sha w).1 = inr (JStr (py local)) →
  (main w).1 = inr () ∧
  fs (main w).2 = fs w ∧
  stdout (main w).2 = stdout w ++ [str "The tag is update to date"] ∧
  trace (main w).2 = trace w ++ [Get URL; Open "Dockerfile" R].
Proof.
  intros H2 H1. rewrite (main_up_to_date w (JStr (py local)) local H1 H2).
  - rewrite print_text. unfold after_reads, log.
    cbn [fst snd fs stdout trace].
    do 3 (split; [done|]). by rewrite <-(assoc_L (++)).
  - cbn. by rewrite bool_decide_eq_false_2 by auto.
Qed.

Lemma up_to_date_writes_nothing_witness :
  (main (world_abc (JStr (py (str "abc1234"))))).1 = inr () ∧
  fs (main (world_abc (JStr (py (str "abc1234"))))).2
    = {[ "Dockerfile"%string := dockerfile_abc ]} ∧
  stdout (main (world_abc (JStr (py (str "abc1234"))))).2
    = [str "The tag is update to date"].
Proof.
  destruct (up_to_date_writes_nothing (world_abc (JStr (py (str "abc1234"))))
              (str "abc1234")) as (H1 & H2 & H3 & _).
  - reflexivity.
  - reflexivity.
  - exact (conj H1 (conj H2 H3)).
Defined.

(** C1 as stated fails: with a second occurrence of the old reference
    in the file, the run replaces that one too, so the file is not the
    old contents with only the first occurrence replaced; and in a file
    with the line ends [\r\n], the run writes the line ends back as
    [\n], so what is outside the reference is not unchanged either. *)
Lemma later_occurrence_replaced :
  (get_dockerfile_sha world_twice).1 = inr (str "abc1234") ∧
  (get_latest_jupyterlabdockerfile_sha world_twice).1
    = inr (JStr (py (str "def5678"))) ∧
  replace_first dockerfile_twice (str "abc1234") (str "def5678")
    = MARKER ++ str "def5678" ++ ["010"%char] ++ str "LABEL base=abc1234" ∧
  fs (main world_twice).2 !! "Dockerfile"
    = Some (MARKER ++ str "def5678" ++ ["010"%char] ++ str "LABEL base=def5678") ∧
  fs (main world_twice).2 !! "Dockerfile"
    ≠ Some (replace_first dockerfile_twice (str "abc1234") (str "def5678")) ∧
  (get_dockerfile_sha world_crlf).1 = inr (str "abc1234") ∧
  replace_first dockerfile_crlf (str "abc1234") (str "def5678")
    = MARKER ++ str "def5678" ++ [CR; LF] ++ str "RUN pip install numpy" ∧
  fs (main world_crlf).2 !! "Dockerfile"
    = Some (MARKER ++ str "def5678" ++ [LF] ++ str "RUN pip install numpy") ∧
  fs (main world_crlf).2 !! "Dockerfile"
    ≠ Some (replace_first dockerfile_crlf (str "abc1234") (str "def5678")).
Proof. repeat split; try by vm_compute. Qed.

(** C1, amended: when the reference fetched is a string that the
    encoding of the files has and that differs from the one extracted,
    the run ends normally and overwrites the Dockerfile with its text
    as read (every [\r\n] and [\r] as [\n]) in which every occurrence
    of the old reference (found from the left, one behind the other) is
    replaced by the new one and nothing else is changed; with a single
    occurrence that is the one replaced; in a file without [\r] the
    text read is the file, so all that is outside the occurrences is
    unchanged character for character; the line printed is
    "The new tag is: " followed by the new reference. *)
Theorem differs_rewrites_all (w : World) (content local remote : text) :
  fs w !! "Dockerfile" = Some content →
  (get_dockerfile_sha w).1 = inr local →
  (get_latest_jupyterlabdockerfile_sha w).1 = inr (JStr (py remote)) →
  remote ≠ local →
  (main w).1 = inr () ∧
  fs (main w).2
  = <["Dockerfile" :=
        str_replace (universal_newlines content) local remote]> (fs w) ∧
  replaced_all local remote (universal_newlines content)
    (str_replace (universal_newlines content) local remote) ∧
  (∀ a b : text,
     universal_newlines content = a ++ local ++ b →
     (∀ a' b' : text,
        universal_newlines content = a' ++ local ++ b' → a' = a) →
     str_replace (universal_newlines content) local remote
     = a ++ remote ++ b) ∧
  (Forall (λ c, c ≠ CR) content →
   universal_newlines content = content ∧
   replaced_all local remote content (str_replace content local remote) ∧
   fs (main w).2 !! "Dockerfile"
   = Some (str_replace content local remote)) ∧
  stdout (main w).2 = stdout w ++ [str "The new tag is: " ++ remote].
Proof.
  intros Hfile H2 H1 Hne.
  rewrite (main_rewrites w content local remote Hfile H1 H2 Hne).
  cbn [fst snd fs stdout].
  destruct (get_dockerfile_sha_inv _ _ _ Hfile H2)
    as (pre & post & _ & _ & Hlen & _).
  assert (local ≠ []) as Hlocal by (intros ->; simpl in Hlen; lia).
  do 2 (split; [done|]). split; [by apply str_replace_all|].
  split; [|split; [|done]].
  - intros a b Heq Huniq. rewrite Heq in Huniq |- *.
    by apply str_replace_single.
  - intros Hfree. rewrite (universal_newlines_id _ Hfree).
    split; [done|]. split; [by apply str_replace_all|].
    by rewrite lookup_insert_eq.
Qed.

Lemma differs_rewrites_all_witness :
  fs (main (world_abc (JStr (py (str "def5678"))))).2
  = <["Dockerfile" :=
        str_replace (universal_newlines dockerfile_abc)
          (str "abc1234") (str "def5678")]>
      {[ "Dockerfile"%string := dockerfile_abc ]} ∧
  stdout (main (world_abc (JStr (py (str "def5678"))))).2
  = [str "The new tag is: def5678"].
Proof.
  destruct (differs_rewrites_all (world_abc (JStr (py (str "def5678"))))
              dockerfile_abc (str "abc1234") (str "def5678"))
    as (_ & H2 & _ & _ & _ & H5).
  - reflexivity.
  - reflexivity.
  - reflexivity.
  - discriminate.
  - exact (conj H2 H5).
Defined.

(** C3 as stated fails: the request goes out first.  Without a
    Dockerfile the extraction never succeeds, and the request has been
    made all the same. *)
Lemma fetch_precedes_read :
  (main world_no_dockerfile).1 = inl FileNotFoundError ∧
  trace (main world_no_dockerfile).2 = [Get URL; Open "Dockerfile" R] ∧
  ¬ read_before_fetch (trace (main world_no_dockerfile).2).
Proof.
  split; [by vm_compute|]. split; [by vm_compute|].
  intros H. destruct (H 0 URL) as (j & Hj & _); [by vm_compute | lia].
Qed.

(** No request occurs in a list of file events. *)
Ltac no_request :=
  let Hin := fresh "Hin" in
  intros ? Hin;
  repeat (apply elem_of_cons in Hin as [Hin|Hin]; [discriminate Hin|]);
  by apply elem_of_nil in Hin.

(** C3, amended: every run starts with the request to the commits
    endpoint, and it is the only request of the run; the Dockerfile is
    opened after it, and only when the fetch has returned: when the
    fetch raises, the run ends with that exception and no file has been
    opened. *)
Theorem fetch_comes_first (w : World) :
  ∃ rest : list event,
    trace (main w).2 = trace w ++ Get URL :: rest ∧
    (∀ url, Get url ∉ rest) ∧
    (∀ e, (get_latest_jupyterlabdockerfile_sha w).1 = inl e →
          rest = [] ∧ (main w).1 = inl e) ∧
    (∀ v, (get_latest_jupyterlabdockerfile_sha w).1 = inr v →
          ∃ rest', rest = Open "Dockerfile" R :: rest').
Proof.
  destruct (main_cases w)
    as [(e & H1 & ->)
       |[(v & e & H1 & H2 & ->)
       |[(local & H1 & H2 & ->)
       |[(content & local & remote & Hfile & H1 & H2 & Hne & ->)
       |(v & local & H1 & H2 & _ & ->)]]]];
    rewrite ?print_text; cbn [fst snd trace after_reads log].
  - exists []. split; [done|]. split; [no_request|]. split.
    + intros e' He'. split; [done|]. congruence.
    + intros v Hv. congruence.
  - exists [Open "Dockerfile" R]. split; [by rewrite <-(assoc_L (++))|].
    split; [no_request|]. split; [congruence|]. by eexists.
  - exists [Open "Dockerfile" R]. split; [by rewrite <-(assoc_L (++))|].
    split; [no_request|]. split; [congruence|]. by eexists.
  - eexists. split; [done|]. split; [no_request|].
    split; [congruence|]. by eexists.
  - eexists. split; [done|]. split; [no_request|].
    split; [congruence|]. by eexists.
Qed.

(** C2 as stated fails: the status code is never looked at.  A 404
    response whose body has the expected shape yields its [sha]; a 403
    response with an object as body fails, but at the subscript [[0]],
    which is no network error. *)
Lemma status_code_ignored :
  (∃ r, net world_404 URL = Some r ∧ status_code r = 404%Z) ∧
  (get_latest_jupyterlabdockerfile_sha world_404).1
    = inr (JStr (py (str "def5678"))) ∧
  (∃ r, net world_403 URL = Some r ∧ status_code r = 403%Z) ∧
  (get_latest_jupyterlabdockerfile_sha world_403).1 = inl KeyError ∧
  kind_of KeyError ≠ NetworkError.
Proof.
  split; [by eexists|]. split; [by vm_compute|]. split; [by eexists|].
  split; [by vm_compute | done].
Qed.

(** C2, amended: [get_latest_jupyterlabdockerfile_sha] makes one request,
    a GET to the commits endpoint, and changes nothing else.  It fails
    with a network error when the request fails, and with a format
    error when the body does not decode or is not an array whose first
    entry is an object with the field [sha]; otherwise it returns that
    field of the first entry, whatever the status code is. *)
Theorem fetch_latest_reference (w : World) :
  (get_latest_jupyterlabdockerfile_sha w).2 = log (Get URL) w ∧
  (net w URL = None →
   ∃ e, (get_latest_jupyterlabdockerfile_sha w).1 = inl e ∧
        kind_of e = NetworkError) ∧
  (∀ r, net w URL = Some r → json_body r = None →
        ∃ e, (get_latest_jupyterlabdockerfile_sha w).1 = inl e ∧
             kind_of e = FormatError) ∧
  (∀ r fields rest sha,
     net w URL = Some r →
     json_body r = Some (JArr (JObj fields :: rest)) →
     fields !! "sha" = Some sha →
     (get_latest_jupyterlabdockerfile_sha w).1 = inr sha) ∧
  (∀ r j,
     net w URL = Some r → json_body r = Some j →
     (∀ fields rest sha,
        j = JArr (JObj fields :: rest) → fields !! "sha" ≠ Some sha) →
     ∃ e, (get_latest_jupyterlabdockerfile_sha w).1 = inl e ∧
          kind_of e = FormatError).
Proof.
  rewrite get_latest_run. cbn [fst snd]. split; [done|]. split; [|split; [|split]].
  - intros ->. by exists ConnectionError.
  - intros r -> ->. by exists JSONDecodeError.
  - intros r fields rest sha -> -> Hsha. unfold first_sha. cbn. by rewrite Hsha.
  - intros r j -> -> Hshape. unfold first_sha.
    destruct j as [| | | |t|items|fields]; cbn;
      try by (eexists; split; [done|done]).
    + destruct (t !! 0); cbn; by eexists.
    + destruct items as [|first items]; cbn; [by eexists|].
      destruct first as [| | | | | |fields]; cbn; try by eexists.
      destruct (fields !! "sha") as [sha|] eqn:Hsha; [|by eexists].
      by destruct (Hshape fields items sha).
Qed.

(** C8 as stated fails: with a [sha] that is not a string the run opens
    the Dockerfile for writing, which empties it, and then raises in
    [replace] before anything is written; with a [sha] that is a string
    the encoding has not it raises in [write], the Dockerfile emptied
    as well. *)
Lemma type_error_truncates :
  fs world_sha_number !! "Dockerfile" = Some dockerfile_abc ∧
  (main world_sha_number).1 = inl TypeError ∧
  fs (main world_sha_number).2 !! "Dockerfile" = Some [] ∧
  fs (main world_sha_number).2 ≠ fs world_sha_number ∧
  trace (main world_sha_number).2
    = [Get URL; Open "Dockerfile" R; Open "Dockerfile" R; Open "Dockerfile" W] ∧
  fs world_surrogate !! "Dockerfile" = Some dockerfile_abc ∧
  (main world_surrogate).1 = inl UnicodeEncodeError ∧
  fs (main world_surrogate).2 !! "Dockerfile" = Some [] ∧
  trace (main world_surrogate).2
    = [Get URL; Open "Dockerfile" R; Open "Dockerfile" R; Open "Dockerfile" W].
Proof.
  split; [by vm_compute|]. split; [by vm_compute|]. split; [by vm_compute|].
  split; [|repeat split; by vm_compute].
  intros Heq. apply (f_equal (λ m, m !! "Dockerfile")) in Heq.
  by vm_compute in Heq.
Qed.

(** C8, amended: an exception of the fetch (request failed, body that
    does not decode, no first entry, no field [sha]) or of the
    extraction (no Dockerfile, no match) ends the run with that
    exception before the Dockerfile is opened for writing: no file is
    changed and nothing is printed.  When the fetched [sha] is a string
    that the encoding of the files has, these are the only exceptions
    of a run, and a run that ends normally has left the files as they
    were or has written the whole new contents of the Dockerfile: the
    text read, with the extracted reference replaced by the fetched
    one. *)
Theorem errors_leave_files (w : World) :
  (∀ e, (get_latest_jupyterlabdockerfile_sha w).1 = inl e →
        (main w).1 = inl e ∧ fs (main w).2 = fs w ∧
        stdout (main w).2 = stdout w) ∧
  (∀ v e, (get_latest_jupyterlabdockerfile_sha w).1 = inr v →
          (get_dockerfile_sha w).1 = inl e →
          (main w).1 = inl e ∧ fs (main w).2 = fs w ∧
          stdout (main w).2 = stdout w) ∧
  ((∀ v, (get_latest_jupyterlabdockerfile_sha w).1 = inr v →
         ∃ t : text, v = JStr (py t)) →
   ∀ e, (main w).1 = inl e →
        ((get_latest_jupyterlabdockerfile_sha w).1 = inl e ∨
         (get_dockerfile_sha w).1 = inl e) ∧
        fs (main w).2 = fs w ∧ stdout (main w).2 = stdout w) ∧
  ((main w).1 = inr () →
   fs (main w).2 = fs w ∨
   ∃ content local remote : text,
     fs w !! "Dockerfile" = Some content ∧
     (get_dockerfile_sha w).1 = inr local ∧
     (get_latest_jupyterlabdockerfile_sha w).1 = inr (JStr (py remote)) ∧
     fs (main w).2
     = <["Dockerfile" :=
           str_replace (universal_newlines content) local remote]> (fs w)).
Proof.
  split; [|split; [|split]].
  - intros e H1. by rewrite (main_fetch_fails w e H1).
  - intros v e H1 H2. by rewrite (main_extract_fails w v e H1 H2).
  - intros Hstr e.
    destruct (main_cases w)
      as [(e' & H1 & ->)
         |[(v & e' & H1 & H2 & ->)
         |[(local & H1 & H2 & ->)
         |[(content & local & remote & Hfile & H1 & H2 & Hne & ->)
         |(v & local & H1 & H2 & Hkind & Hw)]]]];
      rewrite ?print_text; cbn [fst snd fs stdout after_reads log];
      try done.
    + intros [= <-]. split; [by left | done].
    + intros [= <-]. split; [by right | done].
    + destruct (Hstr v H1) as [t ->].
      destruct Hkind as [[Hv _]|[(u & [= <-] & Henc) _]].
      * by destruct (Hv (py t)).
      * by rewrite encode_py in Henc.
  - destruct (main_cases w)
      as [(e' & H1 & ->)
         |[(v & e' & H1 & H2 & ->)
         |[(local & H1 & H2 & ->)
         |[(content & local & remote & Hfile & H1 & H2 & Hne & ->)
         |(v & local & H1 & H2 & Hkind & Hw)]]]];
      rewrite ?print_text; cbn [fst snd fs stdout after_reads log];
      try done.
    + by left.
    + intros _. right. by exists content, local, remote.
    + intros Hok. destruct Hkind as [[_ He]|[_ He]]; congruence.
Qed.

Lemma errors_leave_files_witness :
  (main world_no_dockerfile).1 = inl FileNotFoundError ∧
  fs (main world_no_dockerfile).2 = fs world_no_dockerfile ∧
  stdout (main world_no_dockerfile).2 = stdout world_no_dockerfile.
Proof.
  apply (proj1 (proj2 (errors_leave_files world_no_dockerfile))
           (JStr (py (str "def5678"))) FileNotFoundError).
  - reflexivity.
  - reflexivity.
Defined.

(** * Replacing hex strings in a text with other characters *)

Section ReplaceHex.
Variables old new : text.
Hypothesis old_hex : hexstring old.
Hypothesis old_nonempty : old ≠ [].

(** No occurrence of [old] reaches over a character that is no hex
    digit. *)
Lemma starts_with_across (a b : text) (c : ascii) :
  hexdigit c = false →
  take (length old) (a ++ c :: b) = old ↔ take (length old) a = old.
Proof.
  intros Hc. split; intros H.
  - destruct (decide (length old ≤ length a)) as [Hle|Hgt].
    + by rewrite take_app_le in H.
    + assert (old !! length a = Some c) as Hlook.
      { rewrite <-H, lookup_take_lt by lia. by rewrite list_lookup_middle. }
      pose proof (Forall_lookup_1 _ _ _ _ old_hex Hlook) as Hhex.
      simpl in Hhex. congruence.
  - assert (length old ≤ length a) as Hle.
    { apply (f_equal length) in H. rewrite length_take in H. lia. }
    by rewrite take_app_le.
Qed.

Lemma find_across (a b : text) (c : ascii) :
  hexdigit c = false →
  find old (a ++ c :: b) =
  match find old a with
  | Some i => Some i
  | None => (λ j, length a + S j) <$> find old b
  end.
Proof.
  intros Hc. induction a as [|x a IH].
  - rewrite find_nil by done. cbn [app length].
    rewrite find_unfold, bool_decide_eq_false_2.
    + by destruct (find old b).
    + rewrite (starts_with_across [] b c Hc), take_nil. congruence.
  - rewrite (find_unfold old (x :: a)).
    change ((x :: a) ++ c :: b) with (x :: (a ++ c :: b)).
    rewrite (find_unfold old (x :: (a ++ c :: b))).
    change (x :: (a ++ c :: b)) with ((x :: a) ++ c :: b) at 1.
    case_bool_decide as H1; case_bool_decide as H2;
      try (by apply starts_with_across in H1);
      try (by destruct H1; apply starts_with_across).
    rewrite IH. destruct (find old a) as [i|]; [done|].
    by destruct (find old b).
Qed.

Lemma find_Some_bound (s : text) (i : nat) :
  find old s = Some i → i + length old ≤ length s.
Proof.
  intros (a & b & -> & <- & _)%find_Some_split. rewrite !length_app. lia.
Qed.

(** [str.replace] works on both sides of such a character apart. *)
Lemma str_replace_across (a b : text) (c : ascii) :
  hexdigit c = false →
  str_replace (a ++ c :: b) old new
  = str_replace a old new ++ c :: str_replace b old new.
Proof.
  intros Hc. remember (length a) as n eqn:Hn. revert a Hn.
  induction (lt_wf n) as [n _ IH]. intros a ->.
  rewrite (str_replace_unfold (a ++ c :: b)), (str_replace_unfold a) by done.
  rewrite find_across by done.
  destruct (find old a) as [i|] eqn:Hf.
  - pose proof (find_Some_bound _ _ Hf) as Hb.
    pose proof (find_Some_shorter _ _ _ old_nonempty Hf) as Hsh.
    rewrite take_app_le, drop_app_le by lia.
    rewrite (IH _ Hsh _ eq_refl). by rewrite <-!(assoc_L (++)).
  - rewrite (str_replace_unfold b) by done.
    destruct (find old b) as [j|] eqn:Hb; cbn [fmap option_fmap option_map];
      [|done].
    rewrite take_app_add.
    replace (length a + S j + length old)
      with (length a + (S j + length old)) by lia.
    rewrite drop_app_add. cbn [take drop plus].
    by rewrite <-!(assoc_L (++)).
Qed.

Lemma str_replace_head (b : text) :
  str_replace (old ++ b) old new = new ++ str_replace b old new.
Proof.
  rewrite str_replace_unfold by done. rewrite find_unfold.
  rewrite bool_decide_eq_true_2 by (by rewrite take_app_length).
  cbn [take plus app]. by rewrite drop_app_length.
Qed.

Lemma str_replace_nonhex (t : text) :
  starts_nonhex t → starts_nonhex (str_replace t old new).
Proof.
  destruct t as [|c t]; intros H.
  - by rewrite str_replace_unfold, find_nil by done.
  - change (c :: t) with ([] ++ c :: t).
    rewrite (str_replace_across [] t c H).
    by rewrite (str_replace_unfold []), find_nil.
Qed.

(** A text that starts with fewer hex digits than [old] has keeps the
    number of hex digits it starts with under the replacement. *)
Lemma str_replace_short_run (b : text) :
  run_length hexdigit b < length old →
  run_length hexdigit (str_replace b old new) = run_length hexdigit b.
Proof.
  intros Hshort. pose proof (take_drop (run_length hexdigit b) b) as Hb.
  assert (hexstring (take (run_length hexdigit b) b)) as Hh
    by (by apply run_length_take).
  assert (find old (take (run_length hexdigit b) b) = None) as Hnone.
  { destruct (find old (take _ b)) as [i|] eqn:Hf; [|done].
    apply find_Some_bound in Hf. rewrite length_take in Hf. lia. }
  destruct (drop (run_length hexdigit b) b) as [|c t] eqn:Hd.
  - rewrite app_nil_r in Hb. rewrite <-Hb at 1.
    by rewrite (str_replace_no_occurrence _ _ _ old_nonempty Hnone), Hb.
  - assert (hexdigit c = false) as Hc
      by (apply (run_length_drop hexdigit b); by rewrite Hd).
    rewrite <-Hb at 1. rewrite (str_replace_across _ _ _ Hc).
    rewrite (str_replace_no_occurrence _ _ _ old_nonempty Hnone).
    rewrite (run_length_app _ _ _ Hh). simpl. rewrite Hc.
    rewrite length_take. pose proof (run_length_le hexdigit b). lia.
Qed.
End ReplaceHex.

(** ** The marker under a replacement *)

(** From any place inside the marker on, fewer than three hex digits
    follow, and then another character of the marker. *)
Lemma MARKER_runs (k : nat) :
  k < length MARKER →
  run_length hexdigit (drop k MARKER) < 3 ∧
  run_length hexdigit (drop k MARKER) < length (drop k MARKER).
Proof.
  intros Hk.
  do 41 (destruct k as [|k]; [vm_compute; lia|]).
  rewrite MARKER_length in Hk. lia.
Qed.

Lemma run_length_app_short (P : ascii → bool) (k b : text) :
  run_length P k < length k → run_length P (k ++ b) = run_length P k.
Proof.
  induction k as [|c k IH]; simpl; [lia|].
  destruct (P c); [|done]. intros H. rewrite IH; [done | lia].
Qed.

Lemma find_Some_intro (old s a b : text) :
  s = a ++ old ++ b →
  (∀ a' b' : text, s = a' ++ old ++ b' → length a ≤ length a') →
  find old s = Some (length a).
Proof.
  intros Hs Hleft. destruct (find old s) as [i|] eqn:Hf.
  - destruct (find_Some_split _ _ _ Hf) as (a2 & b2 & Hs2 & <- & Hleft2).
    f_equal. specialize (Hleft _ _ Hs2). specialize (Hleft2 _ _ Hs). lia.
  - apply find_None_not_occurs in Hf. destruct Hf. by exists a, b.
Qed.

Lemma str_replace_leftmost (old new a b : text) :
  old ≠ [] →
  (∀ a' b' : text, a ++ old ++ b = a' ++ old ++ b' → length a ≤ length a') →
  str_replace (a ++ old ++ b) old new = a ++ new ++ str_replace b old new.
Proof.
  intros Hold Hleft. rewrite str_replace_unfold by done.
  rewrite (find_Some_intro old _ a b eq_refl Hleft).
  rewrite take_app_length. do 3 f_equal.
  rewrite (assoc_L (++)), <-length_app. by rewrite drop_app_length.
Qed.

Lemma str_replace_not_occurs (old new s : text) :
  old ≠ [] → ¬ occurs old s → str_replace s old new = s.
Proof.
  intros Hold Hno. apply str_replace_no_occurrence; [done|].
  destruct (find old s) as [i|] eqn:Hf; [|done].
  destruct Hno. destruct (find_Some_split _ _ _ Hf) as (a & b & -> & _).
  by exists a, b.
Qed.

Lemma long_not_nil (t : text) : 3 ≤ length t → t ≠ [].
Proof. intros H ->. simpl in H. lia. Qed.

Section MarkerKept.
Variables old new : text.
Hypothesis old_hex : hexstring old.
Hypothesis old_length : 3 ≤ length old.

Lemma marker_free_of_old (a b : text) : MARKER ≠ a ++ old ++ b.
Proof.
  intros Heq.
  assert (length a < length MARKER) as Hlt.
  { rewrite Heq, !length_app. lia. }
  destruct (MARKER_runs _ Hlt) as [H3 _].
  rewrite Heq, drop_app_length, (run_length_app _ _ _ old_hex) in H3. lia.
Qed.

(** The replacement leaves a marker in place and works on the text
    before it and on the text after it apart. *)
Lemma str_replace_marker (pre rest : text) :
  str_replace (pre ++ MARKER ++ rest) old new
  = str_replace pre old new ++ MARKER ++ str_replace rest old new.
Proof.
  pose proof marker_free_of_old as Hfree.
  pose proof (long_not_nil old old_length) as old_not_nil.
  destruct MARKER_ends as [mid Hmid]. rewrite Hmid in Hfree |- *.
  cbn [app]. rewrite <-(assoc_L (++) mid). cbn [app].
  rewrite (str_replace_across old new old_hex old_not_nil pre _ "F"%char)
    by done.
  rewrite (str_replace_across old new old_hex old_not_nil mid rest ":"%char)
    by done.
  rewrite (str_replace_not_occurs old new mid old_not_nil);
    [by rewrite <-(assoc_L (++) mid)|].
  intros (a & b & ->). apply (Hfree ("F"%char :: a) (b ++ [":"%char])).
  cbn [app]. by rewrite <-!(assoc_L (++)).
Qed.

End MarkerKept.

Section ReplaceMarker.
Variables old new : text.
Hypothesis old_hex : hexstring old.
Hypothesis old_length : 3 ≤ length old.
Hypothesis new_hex : hexstring new.
Hypothesis new_length : 3 ≤ length new.

(** A marker in the text after the replacement was there before it,
    with the replacement done on both sides of it. *)
Lemma str_replace_marker_inv (s a' b' : text) :
  str_replace s old new = a' ++ MARKER ++ b' →
  ∃ a b : text,
    s = a ++ MARKER ++ b ∧
    str_replace a old new = a' ∧ str_replace b old new = b'.
Proof.
  pose proof (long_not_nil old old_length) as Hold.
  remember (length s) as n eqn:Hn. revert s a' Hn.
  induction (lt_wf n) as [n _ IH]. intros s a' -> Heq.
  destruct (find old s) as [i|] eqn:Hf; cycle 1.
  { apply find_None_not_occurs in Hf.
    rewrite str_replace_not_occurs in Heq by done. exists a', b'.
    split; [done|].
    split; apply str_replace_not_occurs; try done;
      intros (x & y & Hxy); apply Hf; subst.
    - exists x, (y ++ MARKER ++ b'). by rewrite <-!(assoc_L (++)).
    - exists (a' ++ MARKER ++ x), y. by rewrite <-!(assoc_L (++)). }
  destruct (find_Some_split _ _ _ Hf) as (p & r & -> & <- & Hleft).
  rewrite str_replace_leftmost in Heq by done.
  assert (∀ k2, a' = p ++ new ++ k2 →
                str_replace r old new = k2 ++ MARKER ++ b' →
                ∃ a b, p ++ old ++ r = a ++ MARKER ++ b ∧
                       str_replace a old new = a' ∧
                       str_replace b old new = b') as Hafter.
  { intros k2 -> Hr.
    destruct (IH (length r)) with (s := r) (a' := k2)
      as (a2 & b & -> & <- & <-); [rewrite !length_app; lia | done | done |].
    exists (p ++ old ++ a2), b. split; [by rewrite <-!(assoc_L (++))|].
    split; [|done]. apply str_replace_leftmost; [done|].
    intros x y Hxy. apply (Hleft x (y ++ MARKER ++ b)).
    rewrite !(assoc_L (++)). rewrite !(assoc_L (++)) in Hxy.
    by rewrite Hxy. }
  assert (∀ k3, p = a' ++ MARKER ++ k3 →
                b' = k3 ++ new ++ str_replace r old new →
                ∃ a b, p ++ old ++ r = a ++ MARKER ++ b ∧
                       str_replace a old new = a' ∧
                       str_replace b old new = b') as Hbefore.
  { intros k3 -> ->. exists a', (k3 ++ old ++ r).
    split; [by rewrite <-!(assoc_L (++))|]. split.
    - apply str_replace_not_occurs; [done|]. intros (x & y & ->).
      specialize (Hleft x (y ++ MARKER ++ k3 ++ old ++ r)).
      rewrite <-!(assoc_L (++)) in Hleft. specialize (Hleft eq_refl).
      rewrite !length_app in Hleft. lia.
    - apply str_replace_leftmost; [done|]. intros x y Hxy.
      specialize (Hleft (a' ++ MARKER ++ x) y).
      rewrite <-!(assoc_L (++)) in Hleft. rewrite Hxy in Hleft.
      specialize (Hleft eq_refl). rewrite !length_app in Hleft. lia. }
  apply app_eq_inv in Heq as [(k & Hp & Hk)|(k & Ha' & Hk)].
  - apply app_eq_inv in Hk as [(k3 & HM & Hk3)|(k3 & -> & Hb')].
    + destruct k3 as [|x k3].
      * rewrite app_nil_r in HM. subst k. simpl in Hk3.
        apply (Hbefore []); [by rewrite app_nil_r | done].
      * exfalso.
        assert (length k < length MARKER) as Hlt
          by (rewrite HM, length_app; simpl; lia).
        destruct (MARKER_runs _ Hlt) as [H3 Hin].
        rewrite HM, drop_app_length in H3, Hin.
        pose proof (run_length_app_short hexdigit _ b' Hin) as Hrun.
        rewrite <-Hk3, (run_length_app _ _ _ new_hex) in Hrun. lia.
    + by apply (Hbefore k3).
  - apply app_eq_inv in Hk as [(k2 & Hnew & Hk2)|(k2 & -> & Hr)].
    + destruct k2 as [|x k2].
      * rewrite app_nil_r in Hnew. subst k. simpl in Hk2.
        apply (Hafter []); [by rewrite app_nil_r | done].
      * exfalso. destruct MARKER_ends as [mid Hmid]. rewrite Hmid in Hk2.
        injection Hk2 as <- _.
        rewrite Hnew in new_hex. apply Forall_app in new_hex as [_ Hx].
        by apply Forall_cons in Hx as [Hx _].
    + by apply (Hafter k2).
Qed.
End ReplaceMarker.

(** ** The extraction after a rewrite *)

(** After the old reference has been replaced by a new one of 5 to 40
    hex digits, the first match of the pattern is the new reference,
    unless the new one is shorter than 40 and hex digits were left
    behind the old one. *)
Lemma search_after_replace (pre local post remote : text) :
  hexstring local → 5 ≤ length local ≤ 40 →
  length local = 40 ∨ starts_nonhex post →
  first_match (pre ++ MARKER ++ local ++ post) pre →
  hexstring remote → 5 ≤ length remote ≤ 40 →
  length remote = 40 ∨ length local < 40 →
  ∃ pre' post' : text,
    str_replace (pre ++ MARKER ++ local ++ post) local remote
    = pre' ++ MARKER ++ remote ++ post' ∧
    (length remote = 40 ∨ starts_nonhex post') ∧
    first_match (pre' ++ MARKER ++ remote ++ post') pre'.
Proof.
  intros Hl Hllen Hlend Hfirst Hr Hrlen Hcap.
  assert (3 ≤ length local) as Hl3 by lia.
  assert (3 ≤ length remote) as Hr3 by lia.
  pose proof (long_not_nil local Hl3) as Hnil.
  exists (str_replace pre local remote), (str_replace post local remote).
  assert (str_replace (pre ++ MARKER ++ local ++ post) local remote
          = str_replace pre local remote ++ MARKER ++ remote
              ++ str_replace post local remote) as Hnew.
  { rewrite (str_replace_marker local remote Hl Hl3).
    by rewrite (str_replace_head local remote Hnil). }
  split; [done|]. split.
  { destruct Hcap as [?|Hlt]; [by left | right].
    apply str_replace_nonhex; [done..|]. destruct Hlend; [lia | done]. }
  rewrite <-Hnew. intros pre2 h2 post2 Heq Hh2 Hlen2.
  apply str_replace_marker_inv in Heq as (a & b & Hab & <- & Hb);
    [|done..].
  assert (5 ≤ run_length hexdigit b) as Hrun.
  { destruct (decide (5 ≤ run_length hexdigit b)) as [|Hshort]; [done|].
    assert (run_length hexdigit b < length local) as Hlt by lia.
    pose proof (str_replace_short_run local remote Hl Hnil b Hlt) as Hsame.
    rewrite Hb, (run_length_app _ _ _ Hh2) in Hsame. lia. }
  pose proof (run_length_le hexdigit b) as Hble.
  assert (length pre ≤ length a) as Hle.
  { apply (Hfirst a (take 5 b) (drop 5 b)).
    - by rewrite take_drop.
    - apply run_length_take. lia.
    - rewrite length_take. lia. }
  apply app_eq_inv in Hab as [(k & -> & Hk)|(k & -> & Hk)].
  - rewrite length_app in Hle. destruct k; [|simpl in Hle; lia].
    by rewrite app_nil_r.
  - destruct k as [|x k]; [by rewrite app_nil_r|].
    destruct MARKER_ends as [mid Hmid]. rewrite Hmid in Hk.
    cbn [app] in Hk. injection Hk as Hx _. subst x.
    rewrite (str_replace_across local remote Hl Hnil pre k "F"%char) by done.
    rewrite length_app. lia.
Qed.

Lemma get_latest_net (w w' : World) :
  net w' = net w →
  (get_latest_jupyterlabdockerfile_sha w').1
  = (get_latest_jupyterlabdockerfile_sha w).1.
Proof. intros H. by rewrite !get_latest_run, H. Qed.

Lemma get_dockerfile_sha_fs (w w' : World) :
  fs w' = fs w → (get_dockerfile_sha w').1 = (get_dockerfile_sha w).1.
Proof. intros H. by rewrite !get_dockerfile_sha_run, H. Qed.

(** The extraction from a Dockerfile that holds the rewritten text. *)
Lemma rewritten_extracts (w w1 : World) (content local remote : text) :
  fs w !! "Dockerfile" = Some content →
  (get_dockerfile_sha w).1 = inr local →
  hexstring remote → 5 ≤ length remote ≤ 40 →
  length remote = 40 ∨ length local < 40 →
  fs w1 !! "Dockerfile"
  = Some (str_replace (universal_newlines content) local remote) →
  (get_dockerfile_sha w1).1 = inr remote.
Proof.
  intros Hfile H2 Hr Hrlen Hcap Hfile1.
  destruct (get_dockerfile_sha_read_inv _ _ _ Hfile H2)
    as (pre & post & Heq & Hl & Hllen & Hlend & Hfirst).
  rewrite Heq in Hfirst, Hfile1.
  destruct (search_after_replace pre local post remote)
    as (pre' & post' & Hnew & Hend' & Hfirst'); try done.
  rewrite Hnew in Hfile1.
  by apply (get_dockerfile_sha_first w1 pre' remote post').
Qed.

(** * Running the script twice *)

(** C6 as stated fails.  With a fetched reference that goes on after
    its hex digits, the second run extracts only the digits and
    replaces them again, so the file grows with every run; and with a
    short fetched reference written in front of hex digits that the
    first run left behind, the second run extracts a longer reference
    and replaces it. *)
Lemma second_run_modifies :
  (fs (main world_dirty).2 !! "Dockerfile"
   = Some (MARKER ++ str "def5678-dirty" ++ ["010"%char]
             ++ str "RUN pip install numpy") ∧
   fs (main (main world_dirty).2).2 !! "Dockerfile"
   = Some (MARKER ++ str "def5678-dirty-dirty" ++ ["010"%char]
             ++ str "RUN pip install numpy") ∧
   fs (main (main world_dirty).2).2 ≠ fs (main world_dirty).2) ∧
  (fs (main world_long).2 !! "Dockerfile"
   = Some (MARKER ++ str "def567889abc") ∧
   fs (main (main world_long).2).2 !! "Dockerfile"
   = Some (MARKER ++ str "def5678") ∧
   fs (main (main world_long).2).2 ≠ fs (main world_long).2).
Proof.
  split; (split; [by vm_compute|]); (split; [by vm_compute|]);
    intros Heq; apply (f_equal (λ m, m !! "Dockerfile")) in Heq;
    by vm_compute in Heq.
Qed.

(** C6, amended: when the fetched reference is a string of 5 to 40 hex
    digits, and it has 40 digits or the reference extracted from the
    file has fewer than 40, then for every file contents the second of
    two runs in succession leaves the files as the first run left them;
    and when the first run ended normally, the second one ends normally
    and prints "The tag is update to date". *)
Theorem second_run_changes_nothing (w : World) (remote : text) :
  (get_latest_jupyterlabdockerfile_sha w).1 = inr (JStr (py remote)) →
  hexstring remote → 5 ≤ length remote ≤ 40 →
  (length remote = 40 ∨
   ∀ local, (get_dockerfile_sha w).1 = inr local → length local < 40) →
  fs (main (main w).2).2 = fs (main w).2 ∧
  ((main w).1 = inr () →
   (main (main w).2).1 = inr () ∧
   stdout (main (main w).2).2
   = stdout (main w).2 ++ [str "The tag is update to date"]).
Proof.
  intros Hfetch Hr Hrlen Hcap.
  assert (∀ w1 : World,
            (get_latest_jupyterlabdockerfile_sha w1).1
            = inr (JStr (py remote)) →
            (get_dockerfile_sha w1).1 = inr remote →
            fs (main w1).2 = fs w1 ∧ (main w1).1 = inr () ∧
            stdout (main w1).2 = stdout w1 ++ [str "The tag is update to date"])
    as Hsame.
  { intros w1 H1 H2.
    rewrite (main_up_to_date w1 (JStr (py remote)) remote H1 H2).
    - by rewrite print_text.
    - cbn. by rewrite bool_decide_eq_false_2 by auto. }
  destruct (main_cases w)
    as [(e & H1 & Hmain)
       |[(v & e & H1 & H2 & Hmain)
       |[(local & H1 & H2 & Hmain)
       |[(content & local & remote' & Hfile & H1 & H2 & Hne & Hmain)
       |(v & local & H1 & H2 & Hkind & Hw)]]]].
  - congruence.
  - rewrite Hmain. cbn [fst snd]. split; [|done].
    rewrite (main_extract_fails (after_reads w) (JStr (py remote)) e);
      [done|..].
    + by rewrite (get_latest_net w).
    + by rewrite (get_dockerfile_sha_fs w).
  - assert (local = remote) as -> by (apply py_inj; congruence).
    rewrite Hmain, print_text. cbn [fst snd].
    match goal with |- context [main ?w1] =>
      destruct (Hsame w1) as (Hfs & Hres & Hout) end.
    + by rewrite (get_latest_net w).
    + by rewrite (get_dockerfile_sha_fs w).
    + done.
  - assert (remote' = remote) as -> by (apply py_inj; congruence).
    rewrite Hmain. cbn [fst snd].
    match goal with |- context [main ?w1] =>
      destruct (Hsame w1) as (Hfs & Hres & Hout) end.
    + by rewrite (get_latest_net w).
    + apply (rewritten_extracts w _ content local remote); try done.
      * destruct Hcap as [?|Hlt]; [by left | right]. by apply Hlt.
      * cbn [fs]. by rewrite lookup_insert_eq.
    + done.
  - destruct Hkind as [[Hv _]|[(u & Hu & Henc) _]].
    + destruct (Hv (py remote)). congruence.
    + assert (u = py remote) as -> by congruence.
      by rewrite encode_py in Henc.
Qed.

Lemma second_run_changes_nothing_witness :
  fs (main (main (world_abc (JStr (py (str "0123456789abcdef0123456789abcdef01234567"))))).2).2
  = fs (main (world_abc (JStr (py (str "0123456789abcdef0123456789abcdef01234567"))))).2.
Proof.
  refine (proj1 (second_run_changes_nothing
            (world_abc (JStr (py (str "0123456789abcdef0123456789abcdef01234567"))))
            (str "0123456789abcdef0123456789abcdef01234567") _ _ _ _)).
  - reflexivity.
  - repeat constructor.
  - simpl; lia.
  - left; reflexivity.
Defined.

(** * Further properties of the script *)

(** ** What [str.replace] keeps when hex strings are exchanged *)

Lemma filter_hexstring (h : text) :
  hexstring h → filter (λ c, hexdigit c = false) h = [].
Proof.
  induction 1 as [|c h Hc _ IH]; [done|].
  rewrite filter_cons_False; [done | congruence].
Qed.

Lemma drop_past_occurrence (a old b : text) :
  drop (length a + length old) (a ++ old ++ b) = b.
Proof. rewrite (assoc_L (++)), <-length_app. apply drop_app_length. Qed.

Lemma str_replace_filter (s old new : text) :
  old ≠ [] → hexstring old → hexstring new →
  filter (λ c, hexdigit c = false) (str_replace s old new)
  = filter (λ c, hexdigit c = false) s.
Proof.
  intros Hold Ho Hn. remember (length s) as n eqn:Hlen. revert s Hlen.
  induction (lt_wf n) as [n _ IH]. intros s ->.
  rewrite str_replace_unfold by done.
  destruct (find old s) as [i|] eqn:Hf; [|done].
  pose proof (find_Some_shorter _ _ _ Hold Hf) as Hsh.
  destruct (find_Some_split _ _ _ Hf) as (a & b & -> & <- & _).
  rewrite drop_past_occurrence in Hsh |- *. rewrite take_app_length.
  rewrite !filter_app, (IH _ Hsh _ eq_refl).
  by rewrite (filter_hexstring _ Ho), (filter_hexstring _ Hn).
Qed.

Lemma str_replace_length (s old new : text) :
  old ≠ [] → length new = length old →
  length (str_replace s old new) = length s.
Proof.
  intros Hold Heq. remember (length s) as n eqn:Hlen. revert s Hlen.
  induction (lt_wf n) as [n _ IH]. intros s ->.
  rewrite str_replace_unfold by done.
  destruct (find old s) as [i|] eqn:Hf; [|done].
  pose proof (find_Some_shorter _ _ _ Hold Hf) as Hsh.
  destruct (find_Some_split _ _ _ Hf) as (a & b & -> & <- & _).
  rewrite drop_past_occurrence in Hsh |- *. rewrite take_app_length.
  rewrite !length_app, (IH _ Hsh _ eq_refl). lia.
Qed.

(** ** The extraction and the run *)

(** X1: whatever [get_dockerfile_sha] returns is in the file as the
    pattern asks: a string of 5 to 40 digits from [0-9a-f] that stands
    right behind a marker, runs up to the next other character (or has
    the 40 digits the pattern allows), and has no match before it. *)
Theorem extracted_reference_sound (w : World) (content local : text) :
  fs w !! "Dockerfile" = Some content →
  (get_dockerfile_sha w).1 = inr local →
  hexstring local ∧ 5 ≤ length local ≤ 40 ∧
  ∃ pre post : text,
    content = pre ++ MARKER ++ local ++ post ∧
    (length local = 40 ∨ starts_nonhex post) ∧
    first_match content pre.
Proof.
  intros Hfile Hget.
  destruct (get_dockerfile_sha_inv w content local Hfile Hget)
    as (pre & post & Hc & Hh & Hlen & Hend & Hfirst).
  split; [done|]. split; [done|]. by exists pre, post.
Qed.

Lemma extracted_reference_sound_witness :
  hexstring (str "abc1234") ∧ 5 ≤ length (str "abc1234") ≤ 40 ∧
  ∃ pre post : text,
    dockerfile_abc = pre ++ MARKER ++ str "abc1234" ++ post ∧
    (length (str "abc1234") = 40 ∨ starts_nonhex post) ∧
    first_match dockerfile_abc pre.
Proof.
  apply (extracted_reference_sound (world_abc JNull)).
  - reflexivity.
  - reflexivity.
Defined.

(** X2: a run neither creates nor removes a file, touches no file but
    the Dockerfile, and leaves the network as it is; in particular it
    never creates a Dockerfile that was not there. *)
Theorem only_dockerfile_touched (w : World) :
  dom (fs (main w).2) = dom (fs w) ∧
  (∀ path : string,
     path ≠ "Dockerfile"%string → fs (main w).2 !! path = fs w !! path) ∧
  net (main w).2 = net w.
Proof.
  destruct (main_cases w)
    as [(e & H1 & ->)
       |[(v & e & H1 & H2 & ->)
       |[(local & H1 & H2 & ->)
       |[(content & local & remote & Hfile & H1 & H2 & Hne & ->)
       |(v & local & H1 & H2 & _ & ->)]]]];
    rewrite ?print_text; cbn [fst snd fs net after_reads log]; try done.
  - split; [|split; [|done]].
    + apply dom_insert_lookup_L. by rewrite Hfile.
    + intros path Hpath. by rewrite lookup_insert_ne.
  - destruct (get_dockerfile_sha_content _ _ H2) as [content Hfile].
    split; [|split; [|done]].
    + apply dom_insert_lookup_L. by rewrite Hfile.
    + intros path Hpath. by rewrite lookup_insert_ne.
Qed.

(** X3: when the fetched [sha] is not a string and the extraction
    succeeds, the run raises [TypeError] after it has opened the
    Dockerfile for writing: the Dockerfile is left empty, nothing is
    written to it and nothing is printed. *)
Theorem non_string_sha_empties (w : World) (v : json) (local : text) :
  (get_latest_jupyterlabdockerfile_sha w).1 = inr v →
  (∀ t, v ≠ JStr t) →
  (get_dockerfile_sha w).1 = inr local →
  (main w).1 = inl TypeError ∧
  fs (main w).2 = <["Dockerfile" := []]> (fs w) ∧
  stdout (main w).2 = stdout w ∧
  trace (main w).2
  = trace w ++ [Get URL; Open "Dockerfile" R; Open "Dockerfile" R;
                Open "Dockerfile" W].
Proof.
  intros H1 Hv H2. by rewrite (main_type_error w v local H1 H2 Hv).
Qed.

Lemma non_string_sha_empties_witness :
  (main (world_abc JNull)).1 = inl TypeError ∧
  fs (main (world_abc JNull)).2
  = <["Dockerfile" := []]> (fs (world_abc JNull)).
Proof.
  destruct (non_string_sha_empties (world_abc JNull) JNull (str "abc1234"))
    as (H1 & H2 & _).
  - reflexivity.
  - discriminate.
  - reflexivity.
  - exact (conj H1 H2).
Defined.

(** X4: after a rewrite to a string that the encoding of the files
    has, whatever its characters are, the marker that had the old
    reference behind it has that string behind it: the new contents are
    the text read before the marker and the text read after the old
    reference, each with its own occurrences replaced, around the
    marker and the new reference. *)
Theorem rewrite_pins_remote (w : World) (content local remote : text) :
  fs w !! "Dockerfile" = Some content →
  (get_dockerfile_sha w).1 = inr local →
  (get_latest_jupyterlabdockerfile_sha w).1 = inr (JStr (py remote)) →
  remote ≠ local →
  ∃ pre post : text,
    universal_newlines content = pre ++ MARKER ++ local ++ post ∧
    first_match (universal_newlines content) pre ∧
    fs (main w).2 !! "Dockerfile"
    = Some (str_replace pre local remote ++ MARKER ++ remote
              ++ str_replace post local remote).
Proof.
  intros Hfile H2 H1 Hne.
  destruct (get_dockerfile_sha_read_inv w content local Hfile H2)
    as (pre & post & Heq & Hh & Hlen & _ & Hfirst).
  exists pre, post. split; [done|]. split; [done|].
  rewrite (main_rewrites w _ local remote Hfile H1 H2 Hne).
  cbn [snd fs]. rewrite lookup_insert_eq. f_equal. rewrite Heq.
  assert (3 ≤ length local) as Hl3 by lia.
  rewrite (str_replace_marker local remote Hh Hl3).
  by rewrite (str_replace_head local remote (long_not_nil local Hl3)).
Qed.

Lemma rewrite_pins_remote_witness :
  ∃ pre post : text,
    universal_newlines dockerfile_crlf
    = pre ++ MARKER ++ str "abc1234" ++ post ∧
    first_match (universal_newlines dockerfile_crlf) pre ∧
    fs (main world_crlf).2 !! "Dockerfile"
    = Some (str_replace pre (str "abc1234") (str "def5678")
              ++ MARKER ++ str "def5678"
              ++ str_replace post (str "abc1234") (str "def5678")).
Proof.
  apply (rewrite_pins_remote world_crlf).
  - reflexivity.
  - reflexivity.
  - reflexivity.
  - discriminate.
Defined.

(** X5: write, then read back.  When the fetched reference is a string
    of 5 to 40 digits from [0-9a-f] that differs from the extracted one,
    and it has 40 digits or the extracted one has fewer than 40, then
    [get_dockerfile_sha] on the rewritten Dockerfile returns the fetched
    reference. *)
Theorem rewrite_then_extract (w : World) (local remote : text) :
  (get_dockerfile_sha w).1 = inr local →
  (get_latest_jupyterlabdockerfile_sha w).1 = inr (JStr (py remote)) →
  remote ≠ local →
  hexstring remote → 5 ≤ length remote ≤ 40 →
  length remote = 40 ∨ length local < 40 →
  (get_dockerfile_sha (main w).2).1 = inr remote.
Proof.
  intros H2 H1 Hne Hr Hrlen Hcap.
  destruct (get_dockerfile_sha_content _ _ H2) as [content Hfile].
  apply (rewritten_extracts w _ content local remote); try done.
  rewrite (main_rewrites w _ local remote Hfile H1 H2 Hne). cbn [snd fs].
  by rewrite lookup_insert_eq.
Qed.

Lemma rewrite_then_extract_witness :
  (get_dockerfile_sha (main (world_abc (JStr (py (str "def5678"))))).2).1
  = inr (str "def5678").
Proof.
  apply (rewrite_then_extract (world_abc (JStr (py (str "def5678"))))
           (str "abc1234")).
  - reflexivity.
  - reflexivity.
  - discriminate.
  - repeat constructor.
  - simpl; lia.
  - right; simpl; lia.
Defined.

(** X6: a rewrite to a reference made of digits from [0-9a-f] changes
    such digits only: the characters outside [0-9a-f] of the text read
    from the Dockerfile (spaces, the letters of the instructions, the
    line ends as [\n]) are the same and in the same order after it; in
    a file without [\r] these are the characters of the file itself. *)
Theorem rewrite_keeps_other_characters
    (w : World) (content local remote : text) :
  fs w !! "Dockerfile" = Some content →
  (get_dockerfile_sha w).1 = inr local →
  (get_latest_jupyterlabdockerfile_sha w).1 = inr (JStr (py remote)) →
  remote ≠ local →
  hexstring remote →
  ∃ new_content : text,
    fs (main w).2 !! "Dockerfile" = Some new_content ∧
    filter (λ c, hexdigit c = false) new_content
    = filter (λ c, hexdigit c = false) (universal_newlines content) ∧
    (Forall (λ c, c ≠ CR) content →
     filter (λ c, hexdigit c = false) new_content
     = filter (λ c, hexdigit c = false) content).
Proof.
  intros Hfile H2 H1 Hne Hr.
  destruct (get_dockerfile_sha_inv w content local Hfile H2)
    as (pre & post & _ & Hh & Hlen & _).
  rewrite (main_rewrites w content local remote Hfile H1 H2 Hne).
  cbn [snd fs]. rewrite lookup_insert_eq. eexists. split; [done|].
  assert (local ≠ []) as Hlocal by (apply long_not_nil; lia).
  split; [by apply str_replace_filter|].
  intros Hfree. rewrite (universal_newlines_id _ Hfree).
  by apply str_replace_filter.
Qed.

Lemma rewrite_keeps_other_characters_witness :
  ∃ new_content : text,
    fs (main world_crlf).2 !! "Dockerfile" = Some new_content ∧
    filter (λ c, hexdigit c = false) new_content
    = filter (λ c, hexdigit c = false) (universal_newlines dockerfile_crlf) ∧
    (Forall (λ c, c ≠ CR) dockerfile_crlf →
     filter (λ c, hexdigit c = false) new_content
     = filter (λ c, hexdigit c = false) dockerfile_crlf).
Proof.
  apply (rewrite_keeps_other_characters world_crlf
           dockerfile_crlf (str "abc1234") (str "def5678")).
  - reflexivity.
  - reflexivity.
  - reflexivity.
  - discriminate.
  - repeat constructor.
Defined.

(** X7: a rewrite to a reference that the encoding of the files has and
    that is as long as the old one leaves the Dockerfile as long as the
    text read from it was, however often the old reference occurs in
    it; a file without [\r] keeps its own length. *)
Theorem rewrite_keeps_length (w : World) (content local remote : text) :
  fs w !! "Dockerfile" = Some content →
  (get_dockerfile_sha w).1 = inr local →
  (get_latest_jupyterlabdockerfile_sha w).1 = inr (JStr (py remote)) →
  remote ≠ local →
  length remote = length local →
  ∃ new_content : text,
    fs (main w).2 !! "Dockerfile" = Some new_content ∧
    length new_content = length (universal_newlines content) ∧
    (Forall (λ c, c ≠ CR) content → length new_content = length content).
Proof.
  intros Hfile H2 H1 Hne Hsame.
  destruct (get_dockerfile_sha_inv w content local Hfile H2)
    as (pre & post & _ & Hh & Hlen & _).
  rewrite (main_rewrites w content local remote Hfile H1 H2 Hne).
  cbn [snd fs]. rewrite lookup_insert_eq. eexists. split; [done|].
  assert (local ≠ []) as Hlocal by (apply long_not_nil; lia).
  split; [by apply str_replace_length|].
  intros Hfree. rewrite (universal_newlines_id _ Hfree).
  by apply str_replace_length.
Qed.

Lemma rewrite_keeps_length_witness :
  ∃ new_content : text,
    fs (main world_twice).2 !! "Dockerfile" = Some new_content ∧
    length new_content = length (universal_newlines dockerfile_twice) ∧
    (Forall (λ c, c ≠ CR) dockerfile_twice →
     length new_content = length dockerfile_twice).
Proof.
  apply (rewrite_keeps_length world_twice dockerfile_twice
           (str "abc1234") (str "def5678")).
  - reflexivity.
  - reflexivity.
  - reflexivity.
  - discriminate.
  - reflexivity.
Defined.


(** X9: when the fetched [sha] is a string with a character that the
    encoding of the files has not and the extraction succeeds, the run
    raises [UnicodeEncodeError] in [write], after it has opened the
    Dockerfile for writing: the Dockerfile is left empty, nothing is
    written to it and nothing is printed. *)
Theorem unencodable_sha_empties (w : World) (remote : pystr) (local : text) :
  (get_latest_jupyterlabdockerfile_sha w).1 = inr (JStr remote) →
  encode remote = None →
  (get_dockerfile_sha w).1 = inr local →
  (main w).1 = inl UnicodeEncodeError ∧
  fs (main w).2 = <["Dockerfile" := []]> (fs w) ∧
  stdout (main w).2 = stdout w ∧
  trace (main w).2
  = trace w ++ [Get URL; Open "Dockerfile" R; Open "Dockerfile" R;
                Open "Dockerfile" W].
Proof.
  intros H1 Henc H2. by rewrite (main_encode_error w remote local H1 H2 Henc).
Qed.

Lemma unencodable_sha_empties_witness :
  (main world_surrogate).1 = inl UnicodeEncodeError ∧
  fs (main world_surrogate).2
  = <["Dockerfile" := []]> (fs world_surrogate).
Proof.
  destruct (unencodable_sha_empties world_surrogate [Surrogate 0]
              (str "abc1234")) as (H1 & H2 & _).
  - reflexivity.
  - reflexivity.
  - reflexivity.
  - exact (conj H1 H2).
Defined.
